(** * Technician chatbot: intent classification, routing and retrieval

  A shallow embedding of the two modules that [setup.py] generates,
  [models/intent_classifier.py] (class [IntentClassifier]) and
  [models/rag_system.py] (class [RAGSystem]).

  Modelling conventions.
  - A Python [str] is a [string] whose characters are the code points
    U+0000 .. U+00FF; [str.lower], [str.split] and the JSON escapes are
    the restrictions of the Python operations to that range.
  - The classifier's confidence is an IEEE binary64 value: the kernel's
    primitive [float], with the same rounding as Python's.
  - A retrieval score is the quotient of two set sizes.  It is kept as
    the exact rational in [Q]; binary64 rounding of a quotient is
    monotone, so the order of the exact quotients is the order the
    sort sees.
  - An insertion-ordered [dict] is an association list with unique keys.
  - Exceptions are values of a sum type; the file system is an explicit
    argument. *)

From Stdlib Require Import Ascii PrimFloat Uint63 QArith Floats.
From stdpp Require Import gmap strings list sorting.

Set Warnings "-inexact-float,-clear-no-such-hyp".

(** ** Python built-ins used by the two classes *)

Module Py.

(** [str.lower] on one code point below U+0100: the ASCII capitals and
    the Latin-1 capitals U+00C0 .. U+00DE, without the sign U+00D7. *)
Definition lower_char (c : ascii) : ascii :=
  let n := N_of_ascii c in
  if ((65 <=? n) && (n <=? 90) ||
      (192 <=? n) && (n <=? 222) && negb (n =? 215))%N
  then ascii_of_N (n + 32) else c.

Fixpoint lower (s : string) : string :=
  match s with
  | EmptyString => EmptyString
  | String c s' => String (lower_char c) (lower s')
  end.

(** [str.isspace] on one code point below U+0100. *)
Definition isspace (c : ascii) : bool :=
  let n := N_of_ascii c in
  ((9 <=? n) && (n <=? 13) || (28 <=? n) && (n <=? 32) ||
   (n =? 133) || (n =? 160))%N.

(** [s.split()] with no separator: the maximal runs of characters that
    are not white space, in order; [w] is the run being read. *)
Fixpoint split_go (w : string) (s : string) : list string :=
  match s with
  | EmptyString => if decide (w = "") then [] else [w]
  | String c s' =>
      if isspace c
      then (if decide (w = "") then [] else [w]) ++ split_go "" s'
      else split_go (w +:+ String c "") s'
  end.

Definition split (s : string) : list string := split_go "" s.

(** [s.startswith(p)]. *)
Fixpoint startswith (p s : string) : bool :=
  match p, s with
  | EmptyString, _ => true
  | String a p', String b s' => bool_decide (a = b) && startswith p' s'
  | String _ _, EmptyString => false
  end.

(** [kw in s] on strings: [kw] starts at some position of [s]. *)
Fixpoint contains (kw s : string) : bool :=
  startswith kw s ||
  match s with
  | EmptyString => false
  | String _ s' => contains kw s'
  end.

(** The mathematical reading of [kw in s]. *)
Definition substring (kw s : string) : Prop :=
  ∃ pre post, s = pre +:+ kw +:+ post.

(** [sep.join(parts)]. *)
Fixpoint join (sep : string) (parts : list string) : string :=
  match parts with
  | [] => ""
  | [p] => p
  | p :: rest => p +:+ sep +:+ join sep rest
  end.

(** [l[:k]] for an integer [k]: a negative [k] counts from the end. *)
Definition slice_to {A} (l : list A) (k : Z) : list A :=
  if (0 <=? k)%Z then take (Z.to_nat k) l
  else take (length l - Z.to_nat (- k)) l.

(** [float(n)] for a list length. *)
Definition float_of_nat (n : nat) : float :=
  PrimFloat.of_uint63 (Uint63.of_Z (Z.of_nat n)).

(** The exceptions the modelled code can raise. *)
Inductive exn := ZeroDivisionError | IndexError.

Global Instance exn_eq_dec : EqDecision exn.
Proof. solve_decision. Defined.

(** [a / b] on two non-negative integers. *)
Definition truediv (a b : nat) : exn + Q :=
  if decide (b = 0) then inl ZeroDivisionError
  else inr (Z.of_nat a # Pos.of_nat b).

(** [l[i]]. *)
Definition index {A} (l : list A) (i : nat) : exn + A :=
  match l !! i with
  | Some x => inr x
  | None => inl IndexError
  end.

End Py.

(** ** The [json] calls of [save_model] and [load_or_create_model]

  [json.dump(obj, f, indent=2)] and [json.load(f)] on the values an
  intent table holds: an object whose values are arrays of strings. *)

Module Json.

Definition nl : string := String "010"%char "".

(** The double quote. *)
Definition dquote : ascii := "034"%char.

Definition hex_digit (n : N) : ascii :=
  if (n <? 10)%N then ascii_of_N (48 + n) else ascii_of_N (87 + n).

(** The encoder's escape of one character ([ensure_ascii] is on): the
    quote, the backslash and everything outside [' ' .. '~']. *)
Definition escape_char (c : ascii) : string :=
  let n := N_of_ascii c in
  if (n =? 34)%N then String "\" (String dquote "")
  else if (n =? 92)%N then "\\"
  else if (n =? 10)%N then "\n"
  else if (n =? 13)%N then "\r"
  else if (n =? 9)%N then "\t"
  else if (n =? 8)%N then "\b"
  else if (n =? 12)%N then "\f"
  else if ((32 <=? n) && (n <=? 126))%N then String c ""
  else "\u00" +:+ String (hex_digit (n / 16)) (String (hex_digit (n mod 16)) "").

Fixpoint escape (s : string) : string :=
  match s with
  | EmptyString => ""
  | String c s' => escape_char c +:+ escape s'
  end.

Definition encode_string (s : string) : string :=
  String dquote (escape s +:+ String dquote "").

(** An array of strings that sits one level deep, with [indent=2]. *)
Definition dump_array (items : list string) : string :=
  match items with
  | [] => "[]"
  | _ =>
      "[" +:+ nl +:+ "    " +:+
      Py.join ("," +:+ nl +:+ "    ") (encode_string <$> items) +:+
      nl +:+ "  ]"
  end.

Definition dump_item (item : string * list string) : string :=
  encode_string item.1 +:+ ": " +:+ dump_array item.2.

Definition dump (table : list (string * list string)) : string :=
  match table with
  | [] => "{}"
  | _ =>
      "{" +:+ nl +:+ "  " +:+
      Py.join ("," +:+ nl +:+ "  ") (dump_item <$> table) +:+
      nl +:+ "}"
  end.

(** The decoder's white space. *)
Definition is_ws (c : ascii) : bool :=
  let n := N_of_ascii c in
  ((n =? 32) || (n =? 9) || (n =? 10) || (n =? 13))%N.

Fixpoint skip_ws (s : string) : string :=
  match s with
  | EmptyString => ""
  | String c s' => if is_ws c then skip_ws s' else s
  end.

Definition hex_value (c : ascii) : option N :=
  let n := N_of_ascii c in
  if ((48 <=? n) && (n <=? 57))%N then Some (n - 48)%N
  else if ((97 <=? n) && (n <=? 102))%N then Some (n - 87)%N
  else if ((65 <=? n) && (n <=? 70))%N then Some (n - 55)%N
  else None.

Definition hex4 (a b c d : ascii) : option N :=
  x ← hex_value a; y ← hex_value b; z ← hex_value c; w ← hex_value d;
  Some (((x * 16 + y) * 16 + z) * 16 + w)%N.

(** The one-letter escapes the decoder knows. *)
Definition unescape (e : ascii) : option ascii :=
  let n := N_of_ascii e in
  if (n =? 34)%N then Some dquote
  else if (n =? 92)%N then Some "\"%char
  else if (n =? 47)%N then Some "/"%char
  else if (n =? 98)%N then Some "008"%char
  else if (n =? 102)%N then Some "012"%char
  else if (n =? 110)%N then Some "010"%char
  else if (n =? 114)%N then Some "013"%char
  else if (n =? 116)%N then Some "009"%char
  else None.

Definition cons_fst (c : ascii) (r : string * string) : string * string :=
  (String c r.1, r.2).

(** The decoder's string scanner, started behind the opening quote: the
    string read and the input behind the closing quote.  A raw control
    character is an error; so is, here, a code point above U+00FF. *)
Fixpoint scanstring (s : string) : option (string * string) :=
  match s with
  | EmptyString => None
  | String c s1 =>
      if (N_of_ascii c =? 34)%N then Some ("", s1)
      else if (N_of_ascii c =? 92)%N then
        match s1 with
        | EmptyString => None
        | String e s2 =>
            if (N_of_ascii e =? 117)%N then
              match s2 with
              | String a (String b (String x (String y s3))) =>
                  match hex4 a b x y with
                  | Some n =>
                      if (n <? 256)%N
                      then cons_fst (ascii_of_N n) <$> scanstring s3
                      else None
                  | None => None
                  end
              | _ => None
              end
            else
              match unescape e with
              | Some ch => cons_fst ch <$> scanstring s2
              | None => None
              end
        end
      else if (N_of_ascii c <? 32)%N then None
      else cons_fst c <$> scanstring s1
  end.

(** The loop of the array decoder, at the first character of an item. *)
Fixpoint parse_items (fuel : nat) (s : string)
    : option (list string * string) :=
  match fuel with
  | 0 => None
  | S fuel' =>
      match s with
      | String q s1 =>
          if (N_of_ascii q =? 34)%N then
            match scanstring s1 with
            | Some (v, s2) =>
                match skip_ws s2 with
                | String d s3 =>
                    if (N_of_ascii d =? 93)%N then Some ([v], s3)
                    else if (N_of_ascii d =? 44)%N then
                      match parse_items fuel' (skip_ws s3) with
                      | Some (vs, s4) => Some (v :: vs, s4)
                      | None => None
                      end
                    else None
                | EmptyString => None
                end
            | None => None
            end
          else None
      | EmptyString => None
      end
  end.

(** The array decoder, started behind the bracket. *)
Definition parse_array (fuel : nat) (s : string)
    : option (list string * string) :=
  match skip_ws s with
  | String c s' =>
      if (N_of_ascii c =? 93)%N then Some ([], s')
      else parse_items fuel (String c s')
  | EmptyString => None
  end.

(** The loop of the object decoder, at the first character of a key. *)
Fixpoint parse_pairs (fuel : nat) (s : string)
    : option (list (string * list string) * string) :=
  match fuel with
  | 0 => None
  | S fuel' =>
      match s with
      | String q s1 =>
          if (N_of_ascii q =? 34)%N then
            match scanstring s1 with
            | Some (key, s2) =>
                match skip_ws s2 with
                | String colon s3 =>
                    if (N_of_ascii colon =? 58)%N then
                      match skip_ws s3 with
                      | String br s4 =>
                          if (N_of_ascii br =? 91)%N then
                            match parse_array fuel s4 with
                            | Some (value, s5) =>
                                match skip_ws s5 with
                                | String d s6 =>
                                    if (N_of_ascii d =? 125)%N
                                    then Some ([(key, value)], s6)
                                    else if (N_of_ascii d =? 44)%N then
                                      match parse_pairs fuel' (skip_ws s6) with
                                      | Some (ps, s7) =>
                                          Some ((key, value) :: ps, s7)
                                      | None => None
                                      end
                                    else None
                                | EmptyString => None
                                end
                            | None => None
                            end
                          else None
                      | EmptyString => None
                      end
                    else None
                | EmptyString => None
                end
            | None => None
            end
          else None
      | EmptyString => None
      end
  end.

(** [d[k] = v] on an insertion-ordered dictionary. *)
Fixpoint dict_set (d : list (string * list string)) (k : string)
    (v : list string) : list (string * list string) :=
  match d with
  | [] => [(k, v)]
  | (k', v') :: d' =>
      if decide (k' = k) then (k', v) :: d'
      else (k', v') :: dict_set d' k v
  end.

(** [dict(pairs)]: a repeated key keeps its first place and its last
    value. *)
Definition dict_of_pairs (pairs : list (string * list string))
    : list (string * list string) :=
  foldl (λ d item, dict_set d item.1 item.2) [] pairs.

Fixpoint strlen (s : string) : nat :=
  match s with
  | EmptyString => 0
  | String _ s' => S (strlen s')
  end.

(** A bound on the iterations the two decoder loops spend on the dump
    of a table: one per item and one per keyword. *)
Definition iterations (table : list (string * list string)) : nat :=
  sum_list ((λ item, S (length item.2)) <$> table).

(** [json.load] of a file with content [s]; [None] is a decoding error
    or a document that is not an object of arrays of strings. *)
Definition load (s : string) : option (list (string * list string)) :=
  match skip_ws s with
  | String c s1 =>
      if (N_of_ascii c =? 123)%N then
        match skip_ws s1 with
        | String c2 s2 =>
            if (N_of_ascii c2 =? 125)%N then
              if decide (skip_ws s2 = "") then Some [] else None
            else
              match parse_pairs (strlen s) (String c2 s2) with
              | Some (pairs, s3) =>
                  if decide (skip_ws s3 = "") then Some (dict_of_pairs pairs)
                  else None
              | None => None
              end
        | EmptyString => None
        end
      else None
  | EmptyString => None
  end.

End Json.

(** ** models/intent_classifier.py *)

Module IntentClassifier.

Inductive Route := rule_based | llm.

Global Instance Route_eq_dec : EqDecision Route.
Proof. solve_decision. Defined.

(** [self.intent_keywords]: intent name to keyword list, in insertion
    order. *)
Definition IntentTable := list (string * list string).

(** The dictionary [classify] returns. *)
Record Classification := {
  intent : string;
  confidence : float;
  route : Route
}.

Definition simple_intents : list string :=
  ["greeting"; "goodbye"; "help"; "simple_troubleshooting"; "safety_query"].

Definition _determine_route (intent : string) (confidence : float)
    (text : string) : Route :=
  if bool_decide (intent ∈ simple_intents) && (0.5 <? confidence)%float
  then rule_based
  else if (confidence <? 0.3)%float then rule_based
  else if (0.7 <? confidence)%float then llm else rule_based.

(** [scores[intent] += x] on a [defaultdict(float)]. *)
Fixpoint scores_add (scores : list (string * float)) (k : string)
    (x : float) : list (string * float) :=
  match scores with
  | [] => [(k, (0 + x)%float)]
  | (k', v) :: rest =>
      if decide (k' = k) then (k', (v + x)%float) :: rest
      else (k', v) :: scores_add rest k x
  end.

(** The inner loop of [classify], over the keywords of one intent. *)
Definition score_keywords (text_lower intent : string)
    (keywords : list string) (scores : list (string * float))
    : list (string * float) :=
  foldl (λ sc keyword,
           if Py.contains keyword text_lower
           then scores_add sc intent
                  (1 / Py.float_of_nat (length keywords))%float
           else sc)
        scores keywords.

(** The outer loop, over [self.intent_keywords.items()]. *)
Definition score_intents (text_lower : string) (table : IntentTable)
    : list (string * float) :=
  foldl (λ sc item, score_keywords text_lower item.1 item.2 sc) [] table.

(** [max(scores, key=scores.get)] below its first item: a later item
    replaces the best one only when its value is strictly greater. *)
Fixpoint max_go (best : string * float) (rest : list (string * float))
    : string * float :=
  match rest with
  | [] => best
  | item :: rest' =>
      if (best.2 <? item.2)%float then max_go item rest'
      else max_go best rest'
  end.

(** [min(x, 1.0)]: the second argument wins only when it is smaller. *)
Definition min_one (x : float) : float :=
  if (1 <? x)%float then 1%float else x.

Definition unclear_result : Classification :=
  {| intent := "unclear"; confidence := 0.1; route := rule_based |}.

Definition classify (table : IntentTable) (text : string) : Classification :=
  let text_lower := Py.lower text in
  match score_intents text_lower table with
  | [] => unclear_result
  | first :: rest =>
      let best := max_go first rest in
      let confidence := min_one best.2 in
      {| intent := best.1;
         confidence := confidence;
         route := _determine_route best.1 confidence text_lower |}
  end.

(** [create_default_model]'s table. *)
Definition default_table : IntentTable :=
  [ ("greeting", ["hello"; "hi"; "hey"; "greetings"; "good morning";
                  "good afternoon"]);
    ("goodbye", ["bye"; "goodbye"; "farewell"; "see you"; "exit"; "quit"]);
    ("help", ["help"; "assist"; "what can you do"; "capabilities"; "guide"]);
    ("simple_troubleshooting",
       ["motor"; "pump"; "not working"; "stopped"; "problem"; "issue";
        "broken"; "repair"; "fix"]);
    ("safety_query", ["safety"; "lockout"; "tagout"; "loto"; "ppe";
                      "hazard"; "emergency"]);
    ("maintenance_planning", ["maintenance"; "schedule"; "service";
                              "inspection"; "routine"]);
    ("equipment_specific", ["hvac"; "compressor"; "valve"; "sensor";
                            "electrical"; "mechanical"]);
    ("technical_explanation", ["how does"; "explain"; "why"; "what causes";
                               "principle"; "theory"]);
    ("unclear", ["unclear"; "don't know"; "not sure"; "confusing"; "huh"]) ].

(** The routing policy in the words of the specification: the three
    rules, read top to bottom. *)
Inductive route_policy (intent : string) (confidence : float)
    : Route → Prop :=
| policy_simple :
    intent ∈ simple_intents →
    (0.5 <? confidence)%float = true →
    route_policy intent confidence rule_based
| policy_low :
    ¬ (intent ∈ simple_intents ∧ (0.5 <? confidence)%float = true) →
    (confidence <? 0.3)%float = true →
    route_policy intent confidence rule_based
| policy_high :
    ¬ (intent ∈ simple_intents ∧ (0.5 <? confidence)%float = true) →
    (confidence <? 0.3)%float = false →
    (0.7 <? confidence)%float = true →
    route_policy intent confidence llm
| policy_middle :
    ¬ (intent ∈ simple_intents ∧ (0.5 <? confidence)%float = true) →
    (confidence <? 0.3)%float = false →
    (0.7 <? confidence)%float = false →
    route_policy intent confidence rule_based.

(** No keyword of the table occurs in the lowercased text. *)
Definition no_keyword_occurs (table : IntentTable) (text : string) : Prop :=
  ∀ intent keywords keyword,
    (intent, keywords) ∈ table → keyword ∈ keywords →
    ¬ Py.substring keyword (Py.lower text).

(** Some keyword of the intent occurs in the lowercased text. *)
Definition hit (table : IntentTable) (text_lower name : string) : Prop :=
  ∃ keywords keyword,
    (name, keywords) ∈ table ∧ keyword ∈ keywords ∧
    Py.substring keyword text_lower.

(** Every keyword of the table is a non-empty string. *)
Definition keywords_nonempty (table : IntentTable) : Prop :=
  ∀ intent keywords, (intent, keywords) ∈ table → "" ∉ keywords.

(** *** Persistence *)

(** The instance attributes. *)
Record state := {
  model_path : string;
  intent_keywords : IntentTable
}.

(** What the class sees of the file system: the content of the files
    that exist, and for which paths creating the parent directories and
    opening the file for writing succeeds. *)
Record file_system := {
  files : gmap string string;
  can_write : string → bool
}.

Definition has_slash (s : string) : bool := Py.contains "/" s.

(** [p[:p.rfind('/') + 1]]. *)
Fixpoint head_of (p : string) : string :=
  match p with
  | EmptyString => ""
  | String c p' =>
      if has_slash p' then String c (head_of p')
      else if bool_decide (c = "/"%char) then "/" else ""
  end.

(** [s.rstrip('/')]. *)
Fixpoint rstrip_slash (s : string) : string :=
  match s with
  | EmptyString => ""
  | String c s' =>
      let r := rstrip_slash s' in
      if bool_decide (c = "/"%char) && bool_decide (r = "") then ""
      else String c r
  end.

(** [os.path.dirname] (POSIX): the head up to the last slash, without
    its trailing slashes unless it consists of slashes only. *)
Definition dirname (p : string) : string :=
  let head := head_of p in
  if decide (rstrip_slash head = "") then head else rstrip_slash head.

(** [save_model]: [os.makedirs] of the directory name, then the dump.
    [os.makedirs('')] raises [FileNotFoundError]; this and every other
    exception is caught and logged, and the file is left as it was. *)
Definition save_model (fs : file_system) (self : state) : file_system :=
  if decide (dirname (model_path self) = "") then fs
  else if can_write fs (model_path self) then
    {| files := <[model_path self := Json.dump (intent_keywords self)]> (files fs);
       can_write := can_write fs |}
  else fs.

Definition create_default_model (fs : file_system) (self : state)
    : file_system * state :=
  let self' := {| model_path := model_path self;
                  intent_keywords := default_table |} in
  (save_model fs self', self').

(** [load_or_create_model]. *)
Definition load_or_create_model (fs : file_system) (self : state)
    : file_system * state :=
  match files fs !! model_path self with
  | Some content =>
      match Json.load content with
      | Some table =>
          (fs, {| model_path := model_path self; intent_keywords := table |})
      | None => create_default_model fs self
      end
  | None => create_default_model fs self
  end.

(** [IntentClassifier(model_path)]. *)
Definition init (fs : file_system) (path : string) : file_system * state :=
  load_or_create_model fs {| model_path := path; intent_keywords := [] |}.

(** The keys of a dictionary are pairwise different. *)
Definition is_dict (table : IntentTable) : Prop := NoDup table.*1.

End IntentClassifier.

(** ** models/rag_system.py *)

Module RAGSystem.

(** One entry of [self.metadata]. *)
Record Metadata := {
  filename : string;
  source : string
}.

(** The instance attributes. [documents] and [metadata] are two lists
    that the code keeps in step and reads by the same index. *)
Record state := {
  documents_path : string;
  documents : list string;
  metadata : list Metadata
}.

(** One dictionary of the list [retrieve_context] returns. *)
Record RetrievalResult := {
  text : string;
  result_metadata : Metadata;
  similarity_score : Q;
  rank : nat
}.

(** What [index_documents] sees of the file system: the files that
    [Path(path).glob('*.txt')] yields, each with the outcome of opening
    and reading it, and whether the scan ends by raising. *)
Inductive read_result := read_ok (content : string) | read_error.

Record txt_file := {
  file_name : string;
  file_path : string;
  file_read : read_result
}.

Record listing := {
  files : list txt_file;
  raises : bool
}.

Definition file_system := string → listing.

(** [__init__] before [_initialize_system] runs. *)
Definition init (documents_path : string) : state :=
  {| documents_path := documents_path; documents := []; metadata := [] |}.

(** The body of the [for] loop of [index_documents]: a file that cannot
    be read is logged and skipped. *)
Definition index_file (st : state) (f : txt_file) : state :=
  match file_read f with
  | read_ok content =>
      {| documents_path := documents_path st;
         documents := documents st ++ [content];
         metadata := metadata st ++
           [{| filename := file_name f; source := file_path f |}] |}
  | read_error => st
  end.

(** [index_documents]: the new state and the returned boolean.  The two
    lists are emptied before the directory is scanned; an exception of
    the scan is caught after the files yielded before it were added. *)
Definition index_documents (fs : file_system) (st : state)
    (path_arg : option string) : state * bool :=
  let path :=
    match path_arg with
    | Some p => if decide (p = "") then documents_path st else p
    | None => documents_path st
    end in
  let cleared :=
    {| documents_path := documents_path st;
       documents := []; metadata := [] |} in
  let scan := fs path in
  (foldl index_file cleared (files scan), negb (raises scan)).

(** [set(s.lower().split())]. *)
Definition word_set (s : string) : gset string :=
  list_to_set (Py.split (Py.lower s)).

(** The [for i, doc in enumerate(self.documents)] loop; [i] is the index
    of the head of [docs] and [scored_docs] the list built so far. *)
Fixpoint score_loop (query_words : gset string) (meta : list Metadata)
    (i : nat) (docs : list string) (scored_docs : list RetrievalResult)
    : Py.exn + list RetrievalResult :=
  match docs with
  | [] => inr scored_docs
  | doc :: docs' =>
      let doc_words := word_set doc in
      let overlap := size (query_words ∩ doc_words) in
      if decide (0 < overlap) then
        match Py.truediv overlap (size (query_words ∪ doc_words)) with
        | inl e => inl e
        | inr score =>
            match Py.index meta i with
            | inl e => inl e
            | inr m =>
                score_loop query_words meta (S i) docs'
                  (scored_docs ++
                     [{| text := doc; result_metadata := m;
                         similarity_score := score;
                         rank := length scored_docs + 1 |}])
            end
        end
      else score_loop query_words meta (S i) docs' scored_docs
  end.

(** [x < y] on scores. *)
Definition score_ltb (x y : Q) : bool := negb (Qle_bool y x).

(** [scored_docs.sort(key=..., reverse=True)]: Python's sort is stable
    also when reversed, so the result is the one list that is in
    non-increasing key order and keeps items of equal key in their
    order; insertion from the right builds it. *)
Fixpoint insert_desc (x : RetrievalResult) (l : list RetrievalResult)
    : list RetrievalResult :=
  match l with
  | [] => [x]
  | y :: l' =>
      if score_ltb (similarity_score x) (similarity_score y)
      then y :: insert_desc x l'
      else x :: y :: l'
  end.

Definition sort_desc (l : list RetrievalResult) : list RetrievalResult :=
  foldr insert_desc [] l.

Definition retrieve_context (st : state) (query : string) (k : Z)
    : Py.exn + list RetrievalResult :=
  match documents st with
  | [] => inr []
  | _ =>
      match score_loop (word_set query) (metadata st) 0 (documents st) [] with
      | inl e => inl e
      | inr scored_docs => inr (Py.slice_to (sort_desc scored_docs) k)
      end
  end.

Definition nl : string := String "010"%char "".

Definition separator : string := nl +:+ nl +:+ "---" +:+ nl +:+ nl.

(** The f-string of one result. *)
Definition block (result : RetrievalResult) : string :=
  "Source: " +:+ filename (result_metadata result) +:+ nl +:+ text result.

Definition get_context_string (st : state) (query : string) (k : Z)
    : Py.exn + string :=
  match retrieve_context st query k with
  | inl e => inl e
  | inr [] => inr ""
  | inr results => inr (Py.join separator (block <$> results))
  end.

(** The two lists have the same length, as after any [index_documents]. *)
Definition indexed (st : state) : Prop :=
  length (documents st) = length (metadata st).

(** The overlap of the two word sets as a share of their union. *)
Definition jaccard (query doc : string) : Q :=
  Z.of_nat (size (word_set query ∩ word_set doc))
    # Pos.of_nat (size (word_set query ∪ word_set doc)).

(** The dictionary the loop builds for a matching document, when [n]
    matching documents precede it. *)
Definition result_of (query : string) (doc : string) (m : Metadata)
    (n : nat) : RetrievalResult :=
  {| text := doc; result_metadata := m;
     similarity_score := jaccard query doc;
     rank := n + 1 |}.

(** The document shares a word with the query. *)
Definition matches (query doc : string) : Prop :=
  word_set query ∩ word_set doc ≠ ∅.

Global Instance matches_dec query doc : Decision (matches query doc).
Proof. unfold matches. apply _. Defined.

(** The indexed documents that share a word with the query, each with
    its metadata, in document order. *)
Definition matching (st : state) (query : string)
    : list (string * Metadata) :=
  filter (λ dm, matches query dm.1) (zip (documents st) (metadata st)).

(** Their dictionaries, numbered in that order. *)
Definition matching_results (st : state) (query : string)
    : list RetrievalResult :=
  imap (λ n dm, result_of query dm.1 dm.2 n) (matching st query).

(** The number of indexed documents that share a word with the query. *)
Definition match_count (st : state) (query : string) : nat :=
  length (filter (matches query) (documents st)).

(** The documents and metadata of the files that can be read. *)
Definition readable (fls : list txt_file) : list (string * Metadata) :=
  omap (λ f, match file_read f with
             | read_ok content =>
                 Some (content,
                       {| filename := file_name f; source := file_path f |})
             | read_error => None
             end) fls.

(** The directory [index_documents] scans. *)
Definition scanned_path (st : state) (path_arg : option string) : string :=
  match path_arg with
  | Some p => if decide (p = "") then documents_path st else p
  | None => documents_path st
  end.

Global Instance Qeq_decision (x y : Q) : Decision (x == y)%Q := Qeq_dec x y.

(** Non-increasing score, from left to right. *)
Definition score_ge (a b : RetrievalResult) : Prop :=
  (similarity_score b <= similarity_score a)%Q.

(** The items of score [s]. *)
Definition with_score (s : Q) (l : list RetrievalResult)
    : list RetrievalResult :=
  filter (λ r, similarity_score r == s)%Q l.

(** The dictionary [get_statistics] returns. *)
Record Statistics := {
  total_documents : nat;
  total_chunks : nat;
  vector_store_initialized : bool;
  embedding_model : string
}.

Definition get_statistics (st : state) : Statistics :=
  {| total_documents := length (documents st);
     total_chunks := length (documents st);
     vector_store_initialized := true;
     embedding_model := "simple keyword matching" |}.

End RAGSystem.

(** ** setup.py: the installation script

    The script's effects are the directories it creates, the files it
    writes and the commands it runs.  A function returns the trace of
    these actions, in order, and its value, or no value when an action
    raised; what it prints is left out. *)

Module Setup.

Inductive action :=
| Mkdir (path : string)
| Write (path : string)
| Run (command : string).

Global Instance action_eq_dec : EqDecision action.
Proof. solve_decision. Defined.

(** What the script sees of the machine: the version of the interpreter,
    the answers of [os.path.exists] for the two paths it asks about, at
    the time it asks, whether a command exits with status zero, and
    whether creating a directory or writing a file at a path succeeds. *)
Record environment := {
  version_major : Z;
  version_minor : Z;
  venv_exists : bool;
  dotenv_exists : bool;
  exit_zero : string → bool;
  io_ok : string → bool
}.

(** A computation: the actions attempted so far, and the value unless the
    last action raised. *)
Definition M (A : Type) : Type := list action * option A.

Definition ret {A} (a : A) : M A := ([], Some a).

Definition bind {A B} (m : M A) (f : A → M B) : M B :=
  match m.2 with
  | Some a => (m.1 ++ (f a).1, (f a).2)
  | None => (m.1, None)
  end.

(** One file-system action: attempted, and raising when it fails. *)
Definition attempt (a : action) (ok : bool) : M unit :=
  ([a], if ok then Some tt else None).

(** [run_command]: a failing command gives [False] only when it is
    required; a command that is not required gives [True] either way. *)
Definition run_command (env : environment) (command : string)
    (required : bool) : M bool :=
  ([Run command], Some (if exit_zero env command then true else negb required)).

(** [check_python_version]: a minor version below 8 only prints a
    warning. *)
Definition check_python_version (env : environment) : bool :=
  if decide (version_major env ≠ 3%Z) then false else true.

Definition directories : list string :=
  ["models"; "data"; "logs"; "knowledge_base/technician_manuals";
   "knowledge_base/vector_store"; "static/css"; "static/js";
   "templates/admin"].

Fixpoint make_directories (env : environment) (dirs : list string) : M unit :=
  match dirs with
  | [] => ret tt
  | d :: dirs' =>
      bind (attempt (Mkdir d) (io_ok env d)) (λ _, make_directories env dirs')
  end.

Definition create_directories (env : environment) : M unit :=
  make_directories env directories.

Definition create_safe_requirements (env : environment) : M unit :=
  attempt (Write "requirements_safe.txt") (io_ok env "requirements_safe.txt").

Definition venv_command : string := "python -m venv venv".

Definition setup_virtual_environment (env : environment) : M bool :=
  if venv_exists env then ret true
  else run_command env venv_command true.

(** The commands of the four strategies, in order. *)
Definition strategies : list string :=
  ["venv\Scripts\pip install -r requirements.txt";
   "venv\Scripts\pip install -r requirements_safe.txt";
   "venv\Scripts\pip install --only-binary=all -r requirements_safe.txt";
   "venv\Scripts\pip install Flask python-dotenv pymongo requests"].

(** The [for] loop of [install_requirements]. *)
Fixpoint try_strategies (env : environment) (commands : list string) : M bool :=
  match commands with
  | [] => ret false
  | command :: commands' =>
      bind (run_command env command false)
           (λ success : bool,
              if success then ret true else try_strategies env commands')
  end.

Definition install_requirements (env : environment) : M bool :=
  try_strategies env strategies.

Definition create_env_file (env : environment) : M unit :=
  if dotenv_exists env then ret tt
  else attempt (Write ".env") (io_ok env ".env").

Definition create_simple_intent_classifier (env : environment) : M unit :=
  bind (attempt (Mkdir "models") (io_ok env "models"))
       (λ _, attempt (Write "models/intent_classifier.py")
                     (io_ok env "models/intent_classifier.py")).

Definition create_simple_rag_system (env : environment) : M unit :=
  attempt (Write "models/rag_system.py") (io_ok env "models/rag_system.py").

Definition main (env : environment) : M bool :=
  if negb (check_python_version env) then ret false
  else
    bind (create_directories env) (λ _,
    bind (setup_virtual_environment env) (λ venv_ok : bool,
      if negb venv_ok then ret false
      else
        bind (create_safe_requirements env) (λ _,
        bind (install_requirements env) (λ _,
        bind (create_env_file env) (λ _,
        bind (create_simple_intent_classifier env) (λ _,
        bind (create_simple_rag_system env) (λ _,
        ret true))))))).

(** The command of the first strategy. *)
Definition first_strategy : string :=
  "venv\Scripts\pip install -r requirements.txt".


(** The steps of [main] after the virtual environment. *)
Definition finish (env : environment) : M bool :=
  bind (create_safe_requirements env) (λ _,
  bind (install_requirements env) (λ _,
  bind (create_env_file env) (λ _,
  bind (create_simple_intent_classifier env) (λ _,
  bind (create_simple_rag_system env) (λ _,
  ret true))))).

(** What [main] may do on a given machine: create directories, run the
    command for the virtual environment when there is none, run the first
    installation strategy, and write files, the file [.env] only when
    there is none. *)
Definition permitted (env : environment) (a : action) : Prop :=
  match a with
  | Mkdir _ => True
  | Write p => p = ".env" → dotenv_exists env = false
  | Run c =>
      (c = venv_command ∧ venv_exists env = false) ∨ c = first_strategy
  end.

(** What [main] has done when it returns [False]. *)
Definition preparation (a : action) : Prop :=
  match a with
  | Mkdir _ => True
  | Write _ => False
  | Run c => c = venv_command
  end.


End Setup.

(** ** app.py: the [index-documents] command *)

Module App.

(** [index_documents_command]: the [rag_system] attribute of the
    application afterwards and the line the command echoes.  The value
    [index_documents] returns is dropped. *)
Definition index_documents_command (rag_system : option RAGSystem.state)
    (fs : RAGSystem.file_system) (documents_path : string)
    : option RAGSystem.state * string :=
  match rag_system with
  | Some st =>
      (Some (RAGSystem.index_documents fs st (Some documents_path)).1,
       "Documents indexed successfully!")
  | None => (None, "RAG system not available")
  end.

End App.

(** ** Sample data *)

Module Examples.
Import RAGSystem.

Definition manuals : string := "knowledge_base/technician_manuals".

Definition sample_file (name content : string) : txt_file :=
  {| file_name := name;
     file_path := manuals +:+ "/" +:+ name;
     file_read := read_ok content |}.

(** The four documents [_create_sample_documents] writes. *)
Definition sample_files : list txt_file :=
  [ sample_file "motor_troubleshooting.txt"
      "Motor troubleshooting guide: Check power supply, verify connections, test overload relays, inspect for mechanical binding.";
    sample_file "pump_maintenance.txt"
      "Pump maintenance: Check suction line, verify priming, inspect impeller, check seals for leaks.";
    sample_file "safety_procedures.txt"
      "Safety procedures: Use lockout/tagout, wear proper PPE, follow emergency protocols.";
    sample_file "hvac_maintenance.txt"
      "HVAC maintenance: Replace filters regularly, clean coils, check refrigerant levels, inspect ductwork." ].

Definition sample_fs : file_system :=
  λ _, {| files := sample_files; raises := false |}.

(** A scan that raises before it yields a file. *)
Definition broken_fs : file_system :=
  λ _, {| files := []; raises := true |}.

(** The index after [RAGSystem()] on the sample documents. *)
Definition sample_store : state :=
  (index_documents sample_fs (init manuals) None).1.

(** A file system with the given files on which every write succeeds. *)
Definition permissive (files : gmap string string)
    : IntentClassifier.file_system :=
  {| IntentClassifier.files := files;
     IntentClassifier.can_write := λ _, true |}.

(** A machine with Python 3.11 and neither a virtual environment nor a
    file [.env], on which the virtual environment can be created, every
    [pip] command fails and no file operation fails. *)
Definition fresh_machine : Setup.environment :=
  {| Setup.version_major := 3;
     Setup.version_minor := 11;
     Setup.venv_exists := false;
     Setup.dotenv_exists := false;
     Setup.exit_zero := λ command, bool_decide (command = Setup.venv_command);
     Setup.io_ok := λ _, true |}.

End Examples.

(** * Properties *)

(** ** Strings *)

Section strings.
Import Py.

Lemma str_app_cons (a : ascii) (p s : string) :
  String a p +:+ s = String a (p +:+ s).
Proof. reflexivity. Qed.

Lemma str_app_nil_l (s : string) : "" +:+ s = s.
Proof. reflexivity. Qed.

Lemma str_app_nil_r (s : string) : s +:+ "" = s.
Proof. induction s as [|a s IH]; [done|]. by rewrite str_app_cons, IH. Qed.

Lemma str_app_assoc (s1 s2 s3 : string) :
  (s1 +:+ s2) +:+ s3 = s1 +:+ (s2 +:+ s3).
Proof.
  induction s1 as [|a s1 IH]; [done|]. by rewrite !str_app_cons, IH.
Qed.

Lemma str_app_eq_nil (s1 s2 : string) : s1 +:+ s2 = "" → s1 = "" ∧ s2 = "".
Proof. destruct s1; [done|]. by rewrite str_app_cons. Qed.

Lemma startswith_spec (p s : string) :
  startswith p s = true ↔ ∃ post, s = p +:+ post.
Proof.
  revert s. induction p as [|a p IH]; intros s; simpl.
  - split; [|done]. intros _. by exists s.
  - destruct s as [|b s].
    + split; [done|]. intros [post H]. by rewrite str_app_cons in H.
    + rewrite andb_true_iff, bool_decide_eq_true, IH. split.
      * intros [-> [post ->]]. by exists post.
      * intros [post H]. rewrite str_app_cons in H. injection H as -> ->. eauto.
Qed.

(** The search of [kw in s] finds exactly the occurrences of [kw]. *)
Lemma contains_spec (kw s : string) :
  contains kw s = true ↔ substring kw s.
Proof.
  unfold substring. induction s as [|c s IH].
  - simpl. rewrite orb_false_r, startswith_spec. split.
    + intros [post H]. by exists "", post.
    + intros [pre [post H]]. symmetry in H.
      apply str_app_eq_nil in H as [-> H].
      apply str_app_eq_nil in H as [-> ->]. by exists "".
  - cbn [contains]. rewrite orb_true_iff, startswith_spec, IH. split.
    + intros [[post H]|[pre [post H]]].
      * by exists "", post.
      * exists (String c pre), post. by rewrite str_app_cons, H.
    + intros [[|a pre] [post H]].
      * left. by exists post.
      * right. rewrite str_app_cons in H. injection H as -> ->. eauto.
Qed.

Global Instance substring_dec kw s : Decision (substring kw s).
Proof.
  refine (cast_if (decide (contains kw s = true))); by rewrite <- contains_spec.
Defined.

Lemma contains_empty (kw : string) : kw ≠ "" → contains kw "" = false.
Proof. by destruct kw. Qed.

Lemma lower_empty : lower "" = "".
Proof. reflexivity. Qed.

Lemma split_empty : split "" = [].
Proof. reflexivity. Qed.

End strings.

(** ** The intent classifier *)

Section classifier.
Import IntentClassifier.

(** C1. [_determine_route] follows the three rules of the routing
    policy, for every intent and every confidence: a simple intent with
    confidence above 0.5 goes to the rules; otherwise a confidence below
    0.3 goes to the rules; otherwise the language model answers exactly
    when the confidence is above 0.7.  The comparisons are strict: 0.5 is
    not above 0.5, and at 0.5 and at 0.7 the route is the rules. *)
Theorem determine_route_policy :
  ∀ (intent : string) (confidence : float) (text : string),
    (∀ r, _determine_route intent confidence text = r ↔
          route_policy intent confidence r) ∧
    (0.5 <? 0.5)%float = false ∧
    (0.7 <? 0.7)%float = false ∧
    _determine_route intent 0.5 text = rule_based ∧
    _determine_route intent 0.7 text = rule_based.
Proof.
  intros intent confidence text. split; [|split; [done|split; [done|]]].
  - intros r. unfold _determine_route. split.
    + intros <-.
      destruct (decide (intent ∈ simple_intents ∧
                        (0.5 <? confidence)%float = true)) as [[Hin H5]|Hn].
      * rewrite bool_decide_eq_true_2, H5 by done. by apply policy_simple.
      * assert (bool_decide (intent ∈ simple_intents) &&
                (0.5 <? confidence)%float = false) as ->.
        { apply not_true_is_false.
          intros [?%bool_decide_eq_true ?]%andb_true_iff. by apply Hn. }
        destruct (confidence <? 0.3)%float eqn:H3; [by apply policy_low|].
        destruct (0.7 <? confidence)%float eqn:H7;
          [by apply policy_high|by apply policy_middle].
    + intros [Hin H5|Hn H3|Hn H3 H7|Hn H3 H7].
      * by rewrite bool_decide_eq_true_2, H5.
      * rewrite H3.
        by destruct (bool_decide _ && _).
      * rewrite H3, H7.
        destruct (bool_decide _ && _) eqn:E; [|done].
        apply andb_true_iff in E as [E1%bool_decide_eq_true E2]. by destruct Hn.
      * rewrite H3, H7. by destruct (bool_decide _ && _).
  - unfold _determine_route.
    split; by destruct (bool_decide (intent ∈ simple_intents)).
Qed.

(** C9. The route does not depend on the text: two calls that differ
    only in the text argument return the same route. *)
Theorem determine_route_ignores_text :
  ∀ (intent : string) (confidence : float) (t1 t2 : string),
    _determine_route intent confidence t1 =
    _determine_route intent confidence t2.
Proof. reflexivity. Qed.

Lemma score_keywords_none text_lower intent keywords scores :
  (∀ keyword, keyword ∈ keywords → ¬ Py.substring keyword text_lower) →
  score_keywords text_lower intent keywords scores = scores.
Proof.
  unfold score_keywords. generalize (length keywords). intros n. revert scores.
  induction keywords as [|kw kws IH]; intros scores H; [done|]. simpl.
  destruct (Py.contains kw text_lower) eqn:E.
  - apply contains_spec in E. destruct (H kw); [left|done].
  - apply IH. intros k Hk. apply H. by right.
Qed.

Lemma score_intents_none table text :
  no_keyword_occurs table text →
  score_intents (Py.lower text) table = [].
Proof.
  unfold score_intents, no_keyword_occurs. generalize (@nil (string * float)).
  induction table as [|[i kws] table IH]; intros acc H; [done|]. simpl.
  rewrite score_keywords_none.
  - apply IH. intros i' kws' kw Hin. apply (H i' kws'). by right.
  - intros kw Hkw. apply (H i kws); [left|done].
Qed.

(** C3. When every keyword of the table is a non-empty string and none
    of them occurs in the lowercased text, [classify] returns intent
    [unclear] with confidence 0.1 and route [rule_based]; the empty text
    is such a text. *)
Lemma classify_unmatched table text :
  no_keyword_occurs table text → classify table text = unclear_result.
Proof. intros H. unfold classify. by rewrite score_intents_none. Qed.

Theorem classify_no_keyword :
  ∀ table : IntentTable,
    keywords_nonempty table →
    (∀ text, no_keyword_occurs table text →
             classify table text = unclear_result) ∧
    classify table "" = unclear_result ∧
    unclear_result =
      {| intent := "unclear"; confidence := 0.1; route := rule_based |}.
Proof.
  intros table Hne.
  split; [by apply classify_unmatched|]. split; [|done].
  apply classify_unmatched. intros i kws kw Hin Hkw Hsub.
  apply contains_spec in Hsub. change (Py.lower "") with "" in Hsub.
  rewrite contains_empty in Hsub; [done|].
  intros ->. by apply (Hne i kws).
Qed.

Lemma keywords_nonempty_Forall table :
  Forall (λ item, "" ∉ item.2) table → keywords_nonempty table.
Proof.
  intros H intent keywords Hin.
  by apply (proj1 (Forall_forall _ _) H (intent, keywords)).
Qed.

Lemma no_keyword_occurs_Forall table text :
  Forall (λ item, Forall (λ keyword,
            ¬ Py.substring keyword (Py.lower text)) item.2) table →
  no_keyword_occurs table text.
Proof.
  intros H intent keywords keyword Hin Hkw.
  pose proof (proj1 (Forall_forall _ _) H (intent, keywords) Hin) as Hk.
  by apply (proj1 (Forall_forall _ _) Hk keyword).
Qed.

Lemma classify_no_keyword_witness :
  (∀ text, no_keyword_occurs default_table text →
           classify default_table text = unclear_result) ∧
  classify default_table "" = unclear_result ∧
  unclear_result =
    {| intent := "unclear"; confidence := 0.1; route := rule_based |}.
Proof.
  apply (classify_no_keyword default_table).
  apply keywords_nonempty_Forall.
  apply (bool_decide_unpack _). vm_compute. exact I.
Defined.

(** A text in which no keyword of the default table occurs. *)
Example classify_default_unmatched :
  classify default_table "Conveyor BELT squeaks" = unclear_result.
Proof.
  apply classify_unmatched, no_keyword_occurs_Forall.
  apply (bool_decide_unpack _). vm_compute. exact I.
Qed.

(** The scenario of the specification: one keyword of two matches, the
    confidence is 0.5 and the route is the rules. *)
Example classify_greeting :
  classify [("greeting", ["hello"; "hi"])] "hello there" =
  {| intent := "greeting"; confidence := 0.5; route := rule_based |}.
Proof. by vm_compute. Qed.

End classifier.

(** ** The retrieval system *)

Section retrieval.
Import RAGSystem.

Lemma score_ltb_lt (x y : Q) : score_ltb x y = true ↔ (x < y)%Q.
Proof.
  unfold score_ltb. rewrite negb_true_iff, <- not_true_iff_false, Qle_bool_iff.
  split; [apply Qnot_le_lt|apply Qlt_not_le].
Qed.

Lemma score_ltb_ge (x y : Q) : score_ltb x y = false ↔ (y <= x)%Q.
Proof.
  unfold score_ltb. by rewrite negb_false_iff, Qle_bool_iff.
Qed.

(** *** The sort *)

Lemma insert_desc_Permutation x l : insert_desc x l ≡ₚ x :: l.
Proof.
  induction l as [|y l IH]; simpl; [done|].
  destruct (score_ltb _ _); [|done]. rewrite IH. apply Permutation_swap.
Qed.

Lemma sort_desc_Permutation l : sort_desc l ≡ₚ l.
Proof.
  induction l as [|x l IH]; simpl; [done|].
  by rewrite insert_desc_Permutation, IH.
Qed.

Lemma insert_desc_sorted x l :
  StronglySorted score_ge l → StronglySorted score_ge (insert_desc x l).
Proof.
  induction 1 as [|y l Hl IH Hy]; simpl.
  - by repeat constructor.
  - destruct (score_ltb _ _) eqn:E.
    + apply score_ltb_lt in E. constructor; [done|].
      rewrite insert_desc_Permutation. constructor; [|done].
      by apply Qlt_le_weak.
    + apply score_ltb_ge in E. constructor; [by constructor|].
      constructor; [done|].
      eapply Forall_impl; [exact Hy|]. intros z Hz. unfold score_ge in *.
      by apply Qle_trans with (similarity_score y).
Qed.

Lemma sort_desc_sorted l : StronglySorted score_ge (sort_desc l).
Proof.
  induction l as [|x l IH]; simpl; [constructor|].
  by apply insert_desc_sorted.
Qed.

(** The sort is stable: the items of any one score keep their order. *)
Lemma insert_desc_stable (s : Q) x l :
  with_score s (insert_desc x l) = with_score s (x :: l).
Proof.
  unfold with_score. induction l as [|y l IH]; simpl; [done|].
  destruct (score_ltb _ _) eqn:E; [|done].
  apply score_ltb_lt in E.
  rewrite (filter_cons _ y), IH, !filter_cons.
  destruct (decide (similarity_score y == s)%Q) as [Hy|Hy]; [|done].
  destruct (decide (similarity_score x == s)%Q) as [Hx|Hx]; [|done].
  rewrite Hx, Hy in E. by apply Qlt_irrefl in E.
Qed.

Lemma sort_desc_stable (s : Q) l :
  with_score s (sort_desc l) = with_score s l.
Proof.
  induction l as [|x l IH]; simpl; [done|].
  rewrite insert_desc_stable. unfold with_score in *.
  by rewrite !filter_cons, IH.
Qed.

(** *** The slice *)

Lemma slice_to_nonneg {A} (l : list A) (k : Z) :
  (0 ≤ k)%Z → Py.slice_to l k = take (Z.to_nat k) l.
Proof.
  intros Hk. unfold Py.slice_to. by destruct (Z.leb_spec 0 k); [|lia].
Qed.

Lemma slice_to_nil {A} (k : Z) : Py.slice_to (@nil A) k = [].
Proof. unfold Py.slice_to. destruct (0 <=? k)%Z; apply take_nil. Qed.

Lemma slice_to_prefix {A} (l : list A) (k : Z) :
  Py.slice_to l k `prefix_of` l.
Proof. unfold Py.slice_to. destruct (0 <=? k)%Z; apply prefix_take. Qed.

(** *** The scoring loop *)

Lemma overlap_matches (query doc : string) :
  0 < size (word_set query ∩ word_set doc) ↔ matches query doc.
Proof.
  unfold matches. rewrite <- (leibniz_equiv_iff (_ ∩ _) ∅).
  rewrite <- size_non_empty_iff. lia.
Qed.

(** The guard of the loop keeps the division away from zero. *)
Lemma union_size_pos (X Y : gset string) :
  0 < size (X ∩ Y) → size (X ∪ Y) ≠ 0.
Proof.
  intros H.
  assert (size (X ∩ Y) ≤ size (X ∪ Y)) as Hle.
  { apply subseteq_size. etrans; [apply intersection_subseteq_l|].
    apply union_subseteq_l. }
  lia.
Qed.

Lemma score_loop_spec query docs : ∀ metas pre scored_docs,
  length docs = length metas →
  score_loop (word_set query) (pre ++ metas) (length pre) docs scored_docs =
  inr (scored_docs ++
       imap (λ n dm, result_of query dm.1 dm.2 (length scored_docs + n))
            (filter (λ dm, matches query dm.1) (zip docs metas))).
Proof.
  induction docs as [|doc docs IH]; intros metas pre acc Hlen.
  - simpl. by rewrite app_nil_r.
  - destruct metas as [|m metas]; [done|]. simpl in Hlen.
    cbn [score_loop zip zip_with]. rewrite filter_cons. cbn [fst].
    destruct (decide (0 < size (word_set query ∩ word_set doc))) as [Hpos|Hz].
    + rewrite decide_True by by apply overlap_matches.
      unfold Py.truediv. rewrite decide_False by by apply union_size_pos.
      unfold Py.index. rewrite list_lookup_middle by done.
      replace (S (length pre)) with (length (pre ++ [m]))
        by (rewrite length_app; simpl; lia).
      replace (pre ++ m :: metas) with ((pre ++ [m]) ++ metas)
        by by rewrite <- app_assoc.
      rewrite IH by lia. f_equal. rewrite <- app_assoc. f_equal.
      rewrite imap_cons. cbn [app]. f_equal.
      * unfold result_of, jaccard. simpl. by rewrite Nat.add_0_r.
      * apply imap_ext. intros n dm _. simpl. f_equal.
        rewrite length_app. simpl. lia.
    + rewrite decide_False by by rewrite <- overlap_matches.
      replace (S (length pre)) with (length (pre ++ [m]))
        by (rewrite length_app; simpl; lia).
      replace (pre ++ m :: metas) with ((pre ++ [m]) ++ metas)
        by by rewrite <- app_assoc.
      by rewrite IH by lia.
Qed.

(** On an index whose two lists agree in length, [retrieve_context]
    returns the first [k] of the sorted results of the matching documents. *)
Lemma retrieve_context_spec st query k :
  indexed st →
  retrieve_context st query k =
  inr (Py.slice_to (sort_desc (matching_results st query)) k).
Proof.
  intros Hidx. unfold retrieve_context, matching_results, matching.
  pose proof (score_loop_spec query (documents st) (metadata st) [] [] Hidx)
    as H.
  cbn [app length] in H. rewrite H. clear H.
  destruct (documents st) as [|doc docs]; [|done].
  cbn. by rewrite slice_to_nil.
Qed.

(** The division of the loop never fails. *)
Lemma score_loop_no_zero_division query_words meta docs : ∀ i scored_docs,
  score_loop query_words meta i docs scored_docs ≠ inl Py.ZeroDivisionError.
Proof.
  induction docs as [|doc docs IH]; intros i acc; simpl; [done|].
  destruct (decide _) as [Hpos|]; [|apply IH].
  unfold Py.truediv. rewrite decide_False by by apply union_size_pos.
  unfold Py.index. destruct (meta !! i); [apply IH|done].
Qed.

(** *** What the result holds *)

Lemma matching_results_elem_of st query r :
  r ∈ matching_results st query →
  ∃ i doc m n,
    documents st !! i = Some doc ∧ metadata st !! i = Some m ∧
    matches query doc ∧ r = result_of query doc m n.
Proof.
  unfold matching_results, matching.
  intros (n & [doc m] & -> & Hn)%elem_of_lookup_imap.
  apply list_elem_of_lookup_2, list_elem_of_filter in Hn as [Hm Hz].
  apply elem_of_lookup_zip_with in Hz as (i & d & m' & [= -> ->] & Hd & Hm').
  by exists i, d, m', n.
Qed.

Lemma matching_results_complete st query i doc m :
  documents st !! i = Some doc → metadata st !! i = Some m →
  matches query doc →
  ∃ n, result_of query doc m n ∈ matching_results st query.
Proof.
  intros Hd Hm Hmatch. unfold matching_results, matching.
  assert ((doc, m) ∈ filter (λ dm, matches query dm.1)
                       (zip (documents st) (metadata st))) as Hin.
  { apply list_elem_of_filter. split; [done|].
    by apply (elem_of_lookup_zip_with_2 pair _ _ doc m (doc, m) i). }
  apply list_elem_of_lookup_1 in Hin as [n Hn]. exists n.
  by apply (elem_of_lookup_imap_2
              (λ n dm, result_of query dm.1 dm.2 n) _ (doc, m)).
Qed.

Lemma filter_zip_fst {A B} (P : A → Prop) `{∀ x, Decision (P x)}
    (l : list A) : ∀ k : list B,
  length l = length k →
  (filter (λ p, P p.1) (zip l k)).*1 = filter P l.
Proof.
  induction l as [|x l IH]; intros [|y k] Hlen; try done.
  cbn [zip zip_with]. rewrite !filter_cons. cbn [fst].
  simpl in Hlen. destruct (decide (P x)); simpl; rewrite IH; congruence.
Qed.

Lemma fmap_imap_const {A B C} (h : B → C) (k : A → C) (l : list A) :
  ∀ g : nat → A → B,
    (∀ n x, h (g n x) = k x) → h <$> imap g l = k <$> l.
Proof.
  induction l as [|x l IH]; intros g Hg; [done|].
  rewrite imap_cons, !fmap_cons, Hg. f_equal. apply IH.
  intros n y. apply Hg.
Qed.

(** The results before the sort are those of the matching documents, in
    document order. *)
Lemma matching_results_texts st query :
  indexed st →
  text <$> matching_results st query = filter (matches query) (documents st).
Proof.
  intros Hidx. unfold matching_results, matching.
  rewrite (fmap_imap_const text fst) by done.
  by apply filter_zip_fst.
Qed.

Lemma matching_results_length st query :
  indexed st → length (matching_results st query) = match_count st query.
Proof.
  intros Hidx. unfold match_count.
  by rewrite <- matching_results_texts, length_fmap.
Qed.

Lemma matching_results_no_match st query :
  (∀ doc, doc ∈ documents st → ¬ matches query doc) →
  matching_results st query = [].
Proof.
  intros Hno. unfold matching_results, matching.
  destruct (filter _ _) as [|[doc m] l] eqn:E; [done|].
  assert ((doc, m) ∈ filter (λ dm, matches query dm.1)
                       (zip (documents st) (metadata st))) as Hin
    by (rewrite E; left).
  apply list_elem_of_filter in Hin as [Hm Hz].
  apply elem_of_zip_l in Hz. by destruct (Hno doc).
Qed.

Lemma word_set_empty_no_match query doc :
  word_set query = ∅ → ¬ matches query doc.
Proof.
  unfold matches. intros -> H. apply H, (left_absorb_L ∅ (∩)).
Qed.

End retrieval.

(** ** The claims about retrieval *)

Section retrieval_claims.
Import RAGSystem Examples.

(** C2. The [rank] of a result is not its position in the returned
    list: it is set while the documents are scanned, before the sort.
    On the sample documents the query [check] returns the pump document
    first, with rank 2, and the motor document last, with rank 1. *)
Theorem retrieve_context_rank_before_sort :
  ∃ pump hvac motor,
    retrieve_context sample_store "check" 3 = inr [pump; hvac; motor] ∧
    (filename (result_metadata pump) = "pump_maintenance.txt" ∧
     similarity_score pump = 1 # 12 ∧ rank pump = 2) ∧
    (filename (result_metadata hvac) = "hvac_maintenance.txt" ∧
     similarity_score hvac = 1 # 12 ∧ rank hvac = 3) ∧
    (filename (result_metadata motor) = "motor_troubleshooting.txt" ∧
     similarity_score motor = 1 # 15 ∧ rank motor = 1).
Proof. vm_compute. by eexists _, _, _. Qed.

(** C4, as stated, fails: with [k = 1] the motor document shares the
    word [check] with the query and is not returned. *)
Lemma retrieve_context_drops_matching :
  ¬ (∀ st query k i doc,
       indexed st → (0 ≤ k)%Z →
       documents st !! i = Some doc → matches query doc →
       ∃ out r, retrieve_context st query k = inr out ∧
                r ∈ out ∧ text r = doc).
Proof.
  intros H.
  destruct (H sample_store "check" 1%Z 0
              "Motor troubleshooting guide: Check power supply, verify connections, test overload relays, inspect for mechanical binding.")
    as (out & r & Hout & Hr & Htext);
    [reflexivity|lia|reflexivity
    |apply (bool_decide_unpack _); vm_compute; exact I|].
  vm_compute in Hout. injection Hout as <-.
  apply list_elem_of_singleton in Hr as ->. discriminate Htext.
Qed.

(** C4, amended. On an indexed store, every returned result is an
    indexed document that shares a word with the query, with its own
    metadata and with similarity score |intersection| / |union| of the
    two word sets.  When [k] is at least the number of documents that
    share a word with the query, a document is returned if and only if
    it shares a word with the query.  A query without words returns
    nothing. *)
Theorem retrieve_context_membership :
  ∀ (st : state) (query : string) (k : Z),
    indexed st →
    ∃ out,
      retrieve_context st query k = inr out ∧
      (∀ r, r ∈ out →
         ∃ i doc m,
           documents st !! i = Some doc ∧ metadata st !! i = Some m ∧
           matches query doc ∧
           text r = doc ∧ result_metadata r = m ∧
           similarity_score r = jaccard query doc) ∧
      ((Z.of_nat (match_count st query) ≤ k)%Z →
       ∀ i doc m,
         documents st !! i = Some doc → metadata st !! i = Some m →
         (matches query doc ↔
          ∃ r, r ∈ out ∧ text r = doc ∧ result_metadata r = m ∧
               similarity_score r = jaccard query doc)) ∧
      (word_set query = ∅ → out = []).
Proof.
  intros st query k Hidx. eexists. split; [by apply retrieve_context_spec|].
  assert (∀ r, r ∈ Py.slice_to (sort_desc (matching_results st query)) k →
               r ∈ matching_results st query) as Hsub.
  { intros r Hr. rewrite <- (sort_desc_Permutation (matching_results st query)).
    destruct (slice_to_prefix (sort_desc (matching_results st query)) k)
      as [rest ->].
    apply elem_of_app. by left. }
  split; [|split].
  - intros r Hr. apply Hsub, matching_results_elem_of in Hr
      as (i & doc & m & n & Hd & Hm & Hmatch & ->).
    by exists i, doc, m.
  - intros Hk i doc m Hd Hm. split.
    + intros Hmatch.
      destruct (matching_results_complete st query i doc m Hd Hm Hmatch)
        as [n Hn].
      exists (result_of query doc m n). split; [|done].
      rewrite slice_to_nonneg by lia. rewrite take_ge.
      * by rewrite sort_desc_Permutation.
      * rewrite sort_desc_Permutation, matching_results_length by done. lia.
    + intros (r & Hr & <- & _).
      apply Hsub, matching_results_elem_of in Hr
        as (i' & doc' & m' & n & _ & _ & Hmatch & ->).
      done.
  - intros Hq. rewrite matching_results_no_match; [apply slice_to_nil|].
    intros doc _. by apply word_set_empty_no_match.
Qed.

Lemma retrieve_context_membership_witness :
  ∃ out,
    retrieve_context sample_store "check" 3 = inr out ∧
    (∀ r, r ∈ out →
       ∃ i doc m,
         documents sample_store !! i = Some doc ∧
         metadata sample_store !! i = Some m ∧
         matches "check" doc ∧
         text r = doc ∧ result_metadata r = m ∧
         similarity_score r = jaccard "check" doc) ∧
    ((Z.of_nat (match_count sample_store "check") ≤ 3)%Z →
     ∀ i doc m,
       documents sample_store !! i = Some doc →
       metadata sample_store !! i = Some m →
       (matches "check" doc ↔
        ∃ r, r ∈ out ∧ text r = doc ∧ result_metadata r = m ∧
             similarity_score r = jaccard "check" doc)) ∧
    (word_set "check" = ∅ → out = []).
Proof.
  apply (retrieve_context_membership sample_store "check" 3).
  reflexivity.
Defined.

(** C5. On an indexed store and for [k ≥ 0], the returned list is in
    non-increasing order of similarity score.  The sort is stable: the
    results of any one score are, in their order, the first of those in
    the list before the sort, and that list holds the matching documents
    in document order.  The list has at most [k] items, and it is empty
    when no document shares a word with the query. *)
Theorem retrieve_context_sorted :
  ∀ (st : state) (query : string) (k : Z),
    indexed st → (0 ≤ k)%Z →
    ∃ out,
      retrieve_context st query k = inr out ∧
      StronglySorted
        (λ a b, (similarity_score b <= similarity_score a)%Q) out ∧
      (∀ s, with_score s out `prefix_of`
            with_score s (matching_results st query)) ∧
      text <$> matching_results st query =
        filter (matches query) (documents st) ∧
      (Z.of_nat (length out) ≤ k)%Z ∧
      ((∀ doc, doc ∈ documents st → ¬ matches query doc) → out = []).
Proof.
  intros st query k Hidx Hk. eexists.
  split; [by apply retrieve_context_spec|].
  rewrite slice_to_nonneg by done. split; [|split; [|split; [|split]]].
  - apply (StronglySorted_app_1_l _ _ (drop (Z.to_nat k)
             (sort_desc (matching_results st query)))).
    rewrite take_drop. apply sort_desc_sorted.
  - intros s. rewrite <- (sort_desc_stable s (matching_results st query)).
    destruct (prefix_take (sort_desc (matching_results st query))
                (Z.to_nat k)) as [rest Hrest].
    exists (with_score s rest). unfold with_score.
    by rewrite <- filter_app, <- Hrest.
  - by apply matching_results_texts.
  - rewrite length_take. lia.
  - intros Hno. rewrite matching_results_no_match by done. apply take_nil.
Qed.

Lemma retrieve_context_sorted_witness :
  ∃ out,
    retrieve_context sample_store "check" 2 = inr out ∧
    StronglySorted
      (λ a b, (similarity_score b <= similarity_score a)%Q) out ∧
    (∀ s, with_score s out `prefix_of`
          with_score s (matching_results sample_store "check")) ∧
    text <$> matching_results sample_store "check" =
      filter (matches "check") (documents sample_store) ∧
    (Z.of_nat (length out) ≤ 2)%Z ∧
    ((∀ doc, doc ∈ documents sample_store → ¬ matches "check" doc) →
     out = []).
Proof.
  apply (retrieve_context_sorted sample_store "check" 2);
    [reflexivity|lia].
Defined.

Lemma block_nonempty r : block r ≠ "".
Proof. unfold block. by rewrite str_app_cons. Qed.

Lemma join_blocks_empty (out : list RetrievalResult) :
  Py.join separator (block <$> out) = "" ↔ out = [].
Proof.
  split; [|by intros ->].
  destruct out as [|r [|r' out]]; [done|..]; simpl; intros H.
  - by apply block_nonempty in H.
  - apply str_app_eq_nil in H as [H _]. by apply block_nonempty in H.
Qed.

(** C6. [get_context_string] returns the empty string exactly when
    [retrieve_context] returns no result, as it does on an empty store;
    in every case its value is the blocks of the results, one per result
    and in their order, joined by the separator; a block is the line
    [Source: ] with the file name, a line feed and the document text, and
    the separator is a dashed line between two blank lines. *)
Theorem get_context_string_blocks :
  ∀ (st : state) (query : string) (k : Z),
    (get_context_string st query k = inr "" ↔
     retrieve_context st query k = inr []) ∧
    (∀ out, retrieve_context st query k = inr out →
            get_context_string st query k =
            inr (Py.join separator (block <$> out))) ∧
    (documents st = [] →
     retrieve_context st query k = inr [] ∧
     get_context_string st query k = inr "") ∧
    (∀ r, block r =
          "Source: " +:+ filename (result_metadata r) +:+
          String "010" (text r)) ∧
    separator = String "010" (String "010" ("---" +:+
                  String "010" (String "010" ""))).
Proof.
  intros st query k. unfold get_context_string.
  split; [|split; [|split; [|split; [done|done]]]].
  - destruct (retrieve_context st query k) as [e|[|r out]]; [done|done|].
    split; [|done]. intros [= H].
    by apply (join_blocks_empty (r :: out)) in H.
  - by intros [|r out] ->.
  - intros Hd. unfold retrieve_context. by rewrite Hd.
Qed.

(** The context for the query [verify] on the sample documents. *)
Example get_context_string_sample :
  get_context_string sample_store "verify" 3 =
  inr ("Source: pump_maintenance.txt" +:+ nl +:+
       "Pump maintenance: Check suction line, verify priming, inspect impeller, check seals for leaks." +:+
       nl +:+ nl +:+ "---" +:+ nl +:+ nl +:+
       "Source: motor_troubleshooting.txt" +:+ nl +:+
       "Motor troubleshooting guide: Check power supply, verify connections, test overload relays, inspect for mechanical binding.").
Proof. by vm_compute. Qed.

(** C10. [retrieve_context] never divides by zero, on any store and for
    any query: when the overlap is positive the union of the two word
    sets is not empty, so the quotient is defined.  On an indexed store
    the call returns a list, and a query without words returns the
    empty list on every store. *)
Theorem retrieve_context_total :
  ∀ (st : state) (query : string) (k : Z),
    retrieve_context st query k ≠ inl Py.ZeroDivisionError ∧
    (indexed st → ∃ out, retrieve_context st query k = inr out) ∧
    (∀ doc, 0 < size (word_set query ∩ word_set doc) →
            size (word_set query ∪ word_set doc) ≠ 0 ∧
            Py.truediv (size (word_set query ∩ word_set doc))
                       (size (word_set query ∪ word_set doc)) =
            inr (jaccard query doc)) ∧
    (word_set query = ∅ → retrieve_context st query k = inr []).
Proof.
  intros st query k. split; [|split; [|split]].
  - unfold retrieve_context. destruct (documents st) as [|d l]; [done|].
    pose proof (score_loop_no_zero_division (word_set query) (metadata st)
                  (d :: l) 0 []) as H.
    by destruct (score_loop _ _ _ _ _).
  - intros Hidx. eexists. by apply retrieve_context_spec.
  - intros doc Hpos. pose proof (union_size_pos _ _ Hpos) as Hu.
    split; [done|]. unfold Py.truediv. by rewrite decide_False.
  - intros Hq. unfold retrieve_context.
    destruct (documents st) as [|d l]; [done|].
    assert (∀ docs i acc, score_loop (word_set query) (metadata st) i docs acc
                          = inr acc) as Hloop.
    { induction docs as [|doc docs IH]; intros i acc; simpl; [done|].
      rewrite decide_False; [apply IH|].
      rewrite overlap_matches. by apply word_set_empty_no_match. }
    rewrite Hloop. cbn. by rewrite slice_to_nil.
Qed.

End retrieval_claims.

(** ** Indexing *)

Section indexing.
Import RAGSystem Examples.

Lemma foldl_index_file (fls : list txt_file) : ∀ st,
  documents (foldl index_file st fls) = documents st ++ (readable fls).*1 ∧
  metadata (foldl index_file st fls) = metadata st ++ (readable fls).*2 ∧
  documents_path (foldl index_file st fls) = documents_path st.
Proof.
  induction fls as [|f fls IH]; intros st.
  - simpl. by rewrite !app_nil_r.
  - cbn [foldl]. destruct (IH (index_file st f)) as (-> & -> & ->).
    unfold index_file, readable. cbn [omap list_omap].
    destruct (file_read f); cbn; [|done].
    by rewrite <- !app_assoc.
Qed.

(** C8, as stated, fails: a scan that raises makes [index_documents]
    return [False], and the documents indexed before are gone. *)
Lemma index_documents_failure_clears :
  ¬ (∀ fs st path_arg,
       (index_documents fs st path_arg).2 = false →
       documents (index_documents fs st path_arg).1 = documents st ∧
       metadata (index_documents fs st path_arg).1 = metadata st).
Proof.
  intros H. by destruct (H broken_fs sample_store None) as [[=] _].
Qed.

(** C8, amended. [index_documents] empties both lists before it scans
    the directory.  Whatever it returns, the index then holds the files
    the scan yielded that could be read, with their metadata, and nothing
    of the index before the call; it returns [False] exactly when the
    scan raised, and then the index holds the files yielded before the
    exception.  The two lists have the same length afterwards. *)
Theorem index_documents_replaces :
  ∀ (fs : file_system) (st : state) (path_arg : option string),
    let scan := fs (scanned_path st path_arg) in
    let st' := (index_documents fs st path_arg).1 in
    documents st' = (readable (files scan)).*1 ∧
    metadata st' = (readable (files scan)).*2 ∧
    documents_path st' = documents_path st ∧
    (index_documents fs st path_arg).2 = negb (raises scan) ∧
    indexed st'.
Proof.
  intros fs st path_arg. cbv zeta. unfold index_documents, indexed.
  fold (scanned_path st path_arg). cbn [fst snd].
  destruct (foldl_index_file (files (fs (scanned_path st path_arg)))
              {| documents_path := documents_path st;
                 documents := []; metadata := [] |}) as (-> & -> & ->).
  cbn. by rewrite !length_fmap.
Qed.

End indexing.

(** ** The JSON round trip *)

Section json.
Import Json.

Lemma scanstring_escape_char (c : ascii) (t : string) :
  scanstring (escape_char c +:+ t) = cons_fst c <$> scanstring t.
Proof. destruct c as [[] [] [] [] [] [] [] []]; reflexivity. Qed.

(** The scanner reads back what the encoder escaped. *)
Lemma scanstring_escape (s rest : string) :
  scanstring (escape s +:+ String dquote rest) = Some (s, rest).
Proof.
  induction s as [|c s IH]; [done|].
  cbn [escape]. rewrite str_app_assoc, scanstring_escape_char, IH. done.
Qed.

Lemma encode_string_app (s rest : string) :
  encode_string s +:+ rest = String dquote (escape s +:+ String dquote rest).
Proof.
  unfold encode_string. by rewrite str_app_cons, str_app_assoc.
Qed.

Lemma skip_ws_dquote (t : string) :
  skip_ws (String dquote t) = String dquote t.
Proof. reflexivity. Qed.

(** A joined list of encoded strings starts with a quote. *)
Lemma join_encode_head (sep : string) (items : list string) (rest : string) :
  items ≠ [] →
  ∃ t, Py.join sep (encode_string <$> items) +:+ rest = String dquote t.
Proof.
  destruct items as [|v [|v' items]]; [done|..]; intros _; eexists.
  - cbn [fmap list_fmap Py.join]. apply encode_string_app.
  - cbn [fmap list_fmap Py.join]. rewrite str_app_assoc.
    apply encode_string_app.
Qed.

Lemma join_cons_ne (sep p : string) (l : list string) :
  l ≠ [] → Py.join sep (p :: l) = p +:+ sep +:+ Py.join sep l.
Proof. by destruct l. Qed.

Lemma parse_items_last (v : string) (fuel : nat) (rest : string) :
  parse_items (S fuel)
    (String dquote (escape v +:+ String dquote (nl +:+ "  ]" +:+ rest))) =
  Some ([v], rest).
Proof.
  cbn [parse_items]. change (N_of_ascii dquote =? 34)%N with true.
  cbv iota. by rewrite scanstring_escape.
Qed.

Lemma parse_items_step (v : string) (fuel : nat) (t : string) :
  parse_items (S fuel)
    (String dquote (escape v +:+
       String dquote ("," +:+ nl +:+ "    " +:+ String dquote t))) =
  match parse_items fuel (String dquote t) with
  | Some (vs, s) => Some (v :: vs, s)
  | None => None
  end.
Proof.
  cbn [parse_items]. change (N_of_ascii dquote =? 34)%N with true.
  cbv iota. by rewrite scanstring_escape.
Qed.

(** The array loop reads back the items of a dumped array. *)
Lemma parse_items_dump (items : list string) : ∀ (fuel : nat) (rest : string),
  items ≠ [] → length items ≤ fuel →
  parse_items fuel
    (Py.join ("," +:+ nl +:+ "    ") (encode_string <$> items) +:+
     nl +:+ "  ]" +:+ rest) = Some (items, rest).
Proof.
  induction items as [|v items IH]; [done|]. intros fuel rest _ Hfuel.
  destruct fuel as [|fuel]; [simpl in Hfuel; lia|].
  destruct (decide (items = [])) as [->|Hne].
  - cbn [fmap list_fmap Py.join]. rewrite encode_string_app.
    apply parse_items_last.
  - rewrite fmap_cons, join_cons_ne by by destruct items.
    rewrite !str_app_assoc, encode_string_app.
    specialize (IH fuel rest Hne ltac:(simpl in Hfuel; lia)).
    destruct (join_encode_head ("," +:+ nl +:+ "    ") items
                (nl +:+ "  ]" +:+ rest) Hne) as [t Ht].
    rewrite Ht in IH |- *.
    by rewrite parse_items_step, IH.
Qed.

(** The array decoder reads back a dumped array. *)
Lemma parse_array_dump (items : list string) (fuel : nat) (rest : string) :
  length items ≤ fuel →
  ∃ t, dump_array items +:+ rest = String "[" t ∧
       parse_array fuel t = Some (items, rest).
Proof.
  intros Hfuel. destruct (decide (items = [])) as [->|Hne].
  - by exists (String "]" rest).
  - exists (nl +:+ "    " +:+
            Py.join ("," +:+ nl +:+ "    ") (encode_string <$> items) +:+
            nl +:+ "  ]" +:+ rest).
    split.
    + unfold dump_array. destruct items; [done|].
      by rewrite !str_app_assoc.
    + destruct (join_encode_head ("," +:+ nl +:+ "    ") items
                  (nl +:+ "  ]" +:+ rest) Hne) as [t Ht].
      pose proof (parse_items_dump items fuel rest Hne Hfuel) as H.
      rewrite Ht in H |- *. exact H.
Qed.

Lemma parse_pairs_last (key : string) (value : list string) (fuel : nat)
    (t rest : string) :
  parse_array (S fuel) t = Some (value, nl +:+ "}" +:+ rest) →
  parse_pairs (S fuel)
    (String dquote (escape key +:+ String dquote (": " +:+ String "[" t))) =
  Some ([(key, value)], rest).
Proof.
  intros H. cbn [parse_pairs]. change (N_of_ascii dquote =? 34)%N with true.
  cbv iota. rewrite scanstring_escape.
  change (skip_ws (": " +:+ String "[" t)) with (String ":" (String " " (String "[" t))).
  cbv iota. change (N_of_ascii ":" =? 58)%N with true. cbv iota.
  change (skip_ws (String " " (String "[" t))) with (String "[" t).
  cbv iota. change (N_of_ascii "[" =? 91)%N with true. cbv iota.
  by rewrite H.
Qed.

Lemma parse_pairs_step (key : string) (value : list string) (fuel : nat)
    (t u : string) :
  parse_array (S fuel) t =
    Some (value, "," +:+ nl +:+ "  " +:+ String dquote u) →
  parse_pairs (S fuel)
    (String dquote (escape key +:+ String dquote (": " +:+ String "[" t))) =
  match parse_pairs fuel (String dquote u) with
  | Some (ps, s) => Some ((key, value) :: ps, s)
  | None => None
  end.
Proof.
  intros H. cbn [parse_pairs]. change (N_of_ascii dquote =? 34)%N with true.
  cbv iota. rewrite scanstring_escape.
  change (skip_ws (": " +:+ String "[" t)) with (String ":" (String " " (String "[" t))).
  cbv iota. change (N_of_ascii ":" =? 58)%N with true. cbv iota.
  change (skip_ws (String " " (String "[" t))) with (String "[" t).
  cbv iota. change (N_of_ascii "[" =? 91)%N with true. cbv iota.
  by rewrite H.
Qed.

Lemma join_item_head (sep : string) (table : list (string * list string))
    (rest : string) :
  table ≠ [] →
  ∃ u, Py.join sep (dump_item <$> table) +:+ rest = String dquote u.
Proof.
  destruct table as [|[key value] table]; [done|]. intros _.
  destruct (decide (table = [])) as [->|Hne]; eexists.
  - cbn [fmap list_fmap Py.join]. unfold dump_item.
    rewrite str_app_assoc. apply encode_string_app.
  - rewrite fmap_cons, join_cons_ne by by destruct table.
    unfold dump_item at 1. rewrite !str_app_assoc. apply encode_string_app.
Qed.

Lemma iterations_cons key value table :
  iterations ((key, value) :: table) = S (length value) + iterations table.
Proof. reflexivity. Qed.

(** The object loop reads back the items of a dumped table. *)
Lemma parse_pairs_dump (table : list (string * list string)) :
  ∀ (fuel : nat) (rest : string),
    table ≠ [] → iterations table ≤ fuel →
    parse_pairs fuel
      (Py.join ("," +:+ nl +:+ "  ") (dump_item <$> table) +:+
       nl +:+ "}" +:+ rest) = Some (table, rest).
Proof.
  induction table as [|[key value] table IH]; [done|].
  intros fuel rest _ Hfuel. rewrite iterations_cons in Hfuel.
  destruct fuel as [|fuel]; [lia|].
  destruct (decide (table = [])) as [->|Hne].
  - cbn [fmap list_fmap Py.join]. unfold dump_item. cbn [fst snd].
    rewrite !str_app_assoc, encode_string_app.
    destruct (parse_array_dump value (S fuel) (nl +:+ "}" +:+ rest))
      as (t & -> & Ht); [lia|].
    by apply parse_pairs_last.
  - rewrite fmap_cons, join_cons_ne by by destruct table.
    unfold dump_item at 1. cbn [fst snd].
    rewrite !str_app_assoc, encode_string_app.
    specialize (IH fuel rest Hne ltac:(lia)).
    destruct (join_item_head ("," +:+ nl +:+ "  ") table
                (nl +:+ "}" +:+ rest) Hne) as [u Hu].
    rewrite Hu in IH |- *.
    destruct (parse_array_dump value (S fuel)
                ("," +:+ nl +:+ "  " +:+ String dquote u))
      as (t & -> & Ht); [lia|].
    by rewrite (parse_pairs_step key value fuel t u Ht), IH.
Qed.

(** The dump is long enough to serve as the decoder's fuel. *)
Lemma strlen_app (a b : string) : strlen (a +:+ b) = strlen a + strlen b.
Proof.
  induction a as [|c a IH]; [done|]. rewrite str_app_cons. simpl. by rewrite IH.
Qed.

Lemma strlen_join (sep : string) (l : list string) :
  sum_list (strlen <$> l) ≤ strlen (Py.join sep l).
Proof.
  induction l as [|p l IH]; [done|].
  destruct (decide (l = [])) as [->|Hne]; [simpl; lia|].
  rewrite join_cons_ne by done. rewrite fmap_cons, !strlen_app. simpl. lia.
Qed.

Lemma strlen_dump_array (items : list string) :
  length items ≤ strlen (dump_array items).
Proof.
  destruct (decide (items = [])) as [->|Hne]; [simpl; lia|].
  unfold dump_array. destruct items as [|v items]; [done|].
  rewrite !strlen_app.
  pose proof (strlen_join ("," +:+ nl +:+ "    ")
                (encode_string <$> v :: items)) as H.
  assert (length (v :: items) ≤
          sum_list (strlen <$> (encode_string <$> v :: items))) as H'.
  { clear. induction (v :: items) as [|x l IH]; [done|].
    rewrite !fmap_cons. simpl. lia. }
  lia.
Qed.

Lemma strlen_dump (table : list (string * list string)) :
  iterations table ≤ strlen (dump table).
Proof.
  destruct (decide (table = [])) as [->|Hne]; [cbv; lia|].
  unfold dump. destruct table as [|item table]; [done|].
  rewrite !strlen_app.
  pose proof (strlen_join ("," +:+ nl +:+ "  ")
                (dump_item <$> item :: table)) as H.
  assert (iterations (item :: table) ≤
          sum_list (strlen <$> (dump_item <$> item :: table))) as H'.
  { clear.
    induction (item :: table) as [|[key value] l IH]; [done|].
    rewrite iterations_cons, !fmap_cons.
    change (sum_list (?x :: ?l)) with (x + sum_list l).
    unfold dump_item at 1. cbn [fst snd]. rewrite !strlen_app.
    pose proof (strlen_dump_array value). simpl. lia. }
  lia.
Qed.

Lemma dict_set_fresh d k v : k ∉ d.*1 → dict_set d k v = d ++ [(k, v)].
Proof.
  induction d as [|[k' v'] d IH]; intros Hk; [done|]. simpl.
  rewrite fmap_cons in Hk. apply not_elem_of_cons in Hk as [Hne Hk].
  rewrite decide_False by done. by rewrite IH.
Qed.

Lemma dict_of_pairs_NoDup (pairs : list (string * list string)) :
  NoDup pairs.*1 → dict_of_pairs pairs = pairs.
Proof.
  unfold dict_of_pairs.
  cut (∀ d, NoDup (d ++ pairs).*1 →
            foldl (λ d item, dict_set d item.1 item.2) d pairs = d ++ pairs).
  { intros H. apply (H []). }
  induction pairs as [|[k v] pairs IH]; intros d Hd.
  - by rewrite app_nil_r.
  - cbn [foldl fst snd]. rewrite dict_set_fresh.
    + rewrite IH; rewrite <- app_assoc; done.
    + rewrite fmap_app, fmap_cons in Hd. apply NoDup_app in Hd as (_ & Hd & _).
      intros Hin. apply (Hd k Hin). left.
Qed.

Lemma load_object (u : string) :
  let s := String "{" (String "010" (String " " (String " "
             (String dquote u)))) in
  load s =
  match parse_pairs (strlen s) (String dquote u) with
  | Some (pairs, s3) =>
      if decide (skip_ws s3 = "") then Some (dict_of_pairs pairs) else None
  | None => None
  end.
Proof. reflexivity. Qed.

(** Loading a dumped table gives the table back. *)
Lemma load_dump (table : list (string * list string)) :
  NoDup table.*1 → load (dump table) = Some table.
Proof.
  intros Hnd. destruct (decide (table = [])) as [->|Hne]; [done|].
  pose proof (strlen_dump table) as Hlen.
  pose proof (parse_pairs_dump table (strlen (dump table)) "" Hne Hlen) as H.
  destruct (join_item_head ("," +:+ nl +:+ "  ") table
              (nl +:+ "}" +:+ "") Hne) as [u Hu].
  rewrite Hu in H.
  assert (dump table = String "{" (String "010" (String " " (String " "
            (String dquote u))))) as Hd.
  { unfold dump. destruct table; [done|]. rewrite <- Hu. reflexivity. }
  rewrite Hd in H |- *. rewrite load_object. cbv zeta. rewrite H.
  cbn [skip_ws]. rewrite decide_True by done.
  by rewrite dict_of_pairs_NoDup.
Qed.

End json.

(** ** Saving and loading the intent table *)

Section persistence.
Import IntentClassifier Examples.

(** When the model path has a directory part and the file can be
    written, a classifier built on the same path after [save_model]
    holds the table that was saved. *)
Lemma save_model_round_trip (fs : file_system) (self : state) :
  is_dict (intent_keywords self) →
  dirname (model_path self) ≠ "" →
  can_write fs (model_path self) = true →
  intent_keywords (init (save_model fs self) (model_path self)).2 =
  intent_keywords self.
Proof.
  intros Hdict Hdir Hw. unfold init, load_or_create_model, save_model.
  rewrite decide_False by done. rewrite Hw. cbn [files model_path].
  rewrite lookup_insert_eq. by rewrite load_dump.
Qed.

(** C7. With a model path that is a bare file name, [os.makedirs] gets
    the empty directory name and raises; [save_model] logs the error and
    writes nothing, and a classifier built on the same path afterwards
    holds the default table instead of the one that was saved. *)
Theorem save_model_bare_file_name :
  let table : IntentTable := [("greeting", ["hello"; "hi"])] in
  let self := {| model_path := "intent_keywords.json";
                 intent_keywords := table |} in
  let fs := permissive ∅ in
  is_dict table ∧
  save_model fs self = fs ∧
  intent_keywords (init (save_model fs self) (model_path self)).2 =
    default_table ∧
  default_table ≠ table ∧
  intent_keywords
    (init (save_model fs {| model_path := "models/intent_keywords.json";
                            intent_keywords := table |})
          "models/intent_keywords.json").2 = table.
Proof.
  cbv zeta. split; [|split; [|split; [|split]]].
  - apply (bool_decide_unpack _). by vm_compute.
  - reflexivity.
  - reflexivity.
  - discriminate.
  - apply (save_model_round_trip (permissive ∅)
             {| model_path := "models/intent_keywords.json";
                intent_keywords := [("greeting", ["hello"; "hi"])] |});
      [apply (bool_decide_unpack _); by vm_compute|by vm_compute|done].
Qed.

End persistence.

(** * Further properties of the code *)

(** ** Case folding *)

Section case_folding.
Import Py.

Lemma lower_char_idemp (c : ascii) : lower_char (lower_char c) = lower_char c.
Proof. destruct c as [[] [] [] [] [] [] [] []]; reflexivity. Qed.

Lemma lower_idemp (s : string) : lower (lower s) = lower s.
Proof.
  induction s as [|c s IH]; [done|]. simpl. by rewrite lower_char_idemp, IH.
Qed.

Lemma lower_app (a b : string) : lower (a +:+ b) = lower a +:+ lower b.
Proof.
  induction a as [|c a IH]; [done|]. rewrite str_app_cons. simpl.
  by rewrite IH, str_app_cons.
Qed.

Lemma lower_fixed_app (a b : string) :
  lower (a +:+ b) = a +:+ b → lower a = a ∧ lower b = b.
Proof.
  induction a as [|c a IH]; [done|]. rewrite str_app_cons. simpl.
  intros [= Hc Hab]. destruct (IH Hab) as [-> ->]. by rewrite Hc.
Qed.

(** Whatever occurs in a lowercased text is itself in lower case. *)
Lemma substring_lower_fixed (kw s : string) :
  substring kw (lower s) → lower kw = kw.
Proof.
  intros (pre & post & H).
  assert (lower (pre +:+ kw +:+ post) = pre +:+ kw +:+ post) as Hfix
    by by rewrite <- H, lower_idemp.
  apply lower_fixed_app in Hfix as [_ Hfix].
  by apply lower_fixed_app in Hfix as [Hfix _].
Qed.

End case_folding.

(** ** More on the intent classifier *)

Section classifier_more.
Import IntentClassifier.

Lemma scores_add_keys scores k x (j : string) :
  j ∈ (scores_add scores k x).*1 ↔ j = k ∨ j ∈ scores.*1.
Proof.
  induction scores as [|[k' v] scores IH]; simpl.
  - rewrite list_elem_of_singleton. set_solver.
  - destruct (decide (k' = k)) as [->|Hne]; simpl.
    + rewrite !elem_of_cons. naive_solver.
    + rewrite !elem_of_cons, IH. naive_solver.
Qed.

Lemma score_keywords_keys text_lower name keywords scores (j : string) :
  j ∈ (score_keywords text_lower name keywords scores).*1 ↔
  j ∈ scores.*1 ∨
  (j = name ∧ ∃ keyword, keyword ∈ keywords ∧ Py.substring keyword text_lower).
Proof.
  unfold score_keywords. generalize (length keywords). intros n.
  revert scores. induction keywords as [|kw kws IH]; intros scores; simpl.
  - split; [by left|]. intros [?|(_ & kw & Hkw & _)]; [done|].
    by apply elem_of_nil in Hkw.
  - rewrite IH. destruct (Py.contains kw text_lower) eqn:E.
    + apply contains_spec in E. rewrite scores_add_keys. split.
      * intros [[->|?]|(-> & kw' & Hkw' & Hsub)]; [|by left|].
        -- right. split; [done|]. exists kw. split; [left|done].
        -- right. split; [done|]. exists kw'. split; [by right|done].
      * intros [?|(-> & kw' & Hkw' & Hsub)]; [by left; right|].
        left. by left.
    + assert (¬ Py.substring kw text_lower) as Hno
        by (rewrite <- contains_spec; congruence).
      split.
      * intros [?|(-> & kw' & Hkw' & Hsub)]; [by left|].
        right. split; [done|]. exists kw'. split; [by right|done].
      * intros [?|(-> & kw' & Hkw' & Hsub)]; [by left|].
        apply elem_of_cons in Hkw' as [->|Hkw']; [done|].
        right. split; [done|]. by exists kw'.
Qed.

Lemma score_intents_keys text_lower table (j : string) :
  j ∈ (score_intents text_lower table).*1 ↔ hit table text_lower j.
Proof.
  unfold score_intents, hit.
  cut (∀ scores,
         j ∈ (foldl (λ sc item, score_keywords text_lower item.1 item.2 sc)
                scores table).*1 ↔
         j ∈ scores.*1 ∨
         ∃ keywords keyword, (j, keywords) ∈ table ∧ keyword ∈ keywords ∧
                             Py.substring keyword text_lower).
  { intros H. rewrite (H []). split; [|by right].
    intros [Hnil|?]; [|done]. by apply elem_of_nil in Hnil. }
  induction table as [|[name kws] table IH]; intros scores; simpl.
  - split; [by left|]. intros [?|(kws & kw & Hin & _)]; [done|].
    by apply elem_of_nil in Hin.
  - rewrite IH, score_keywords_keys. split.
    + intros [[?|(-> & kw & Hkw & Hsub)]|(kws' & kw & Hin & Hkw & Hsub)].
      * by left.
      * right. exists kws, kw. split; [left|done].
      * right. exists kws', kw. split; [by right|done].
    + intros [?|(kws' & kw & Hin & Hkw & Hsub)]; [by left; left|].
      apply elem_of_cons in Hin as [[= -> ->]|Hin].
      * left. right. split; [done|]. by exists kw.
      * right. by exists kws', kw.
Qed.

Lemma max_go_elem_of best rest : max_go best rest ∈ best :: rest.
Proof.
  revert best. induction rest as [|item rest IH]; intros best; simpl.
  - left.
  - destruct (best.2 <? item.2)%float.
    + right. apply IH.
    + specialize (IH best). apply elem_of_cons in IH as [->|IH];
        [left|by right; right].
Qed.

Lemma min_one_at_most_one (x : float) : (1 <? min_one x)%float = false.
Proof. unfold min_one. by destruct (1 <? x)%float eqn:E. Qed.

Lemma classify_cases :
  ∀ (table : IntentTable) (text : string),
    let r := classify table text in
    ((no_keyword_occurs table text ∧ r = unclear_result) ∨
     (hit table (Py.lower text) (intent r) ∧
      route r = _determine_route (intent r) (confidence r) (Py.lower text))) ∧
    (1 <? confidence r)%float = false.
Proof.
  intros table text. cbv zeta. unfold classify.
  destruct (score_intents (Py.lower text) table) as [|first rest] eqn:E.
  - split; [|done]. left. split; [|done].
    intros name kws kw Hin Hkw Hsub.
    assert (name ∈ (score_intents (Py.lower text) table).*1) as H
      by (apply score_intents_keys; by exists kws, kw).
    rewrite E in H. by apply elem_of_nil in H.
  - cbn [intent confidence route]. split; [|apply min_one_at_most_one].
    right. split; [|done].
    apply score_intents_keys. rewrite E.
    apply list_elem_of_fmap_2, max_go_elem_of.
Qed.

(** X1. [classify] has two outcomes.  Either no keyword of the table
    occurs in the lowercased text and the result is the default; or the
    intent of the result is an intent of the table one of whose keywords
    occurs in the lowercased text, and the route is the one
    [_determine_route] gives for the result's intent and confidence.  In
    both cases the confidence is not above 1. *)
Theorem classify_outcomes :
  ∀ (table : IntentTable) (text : string),
    let r := classify table text in
    ((no_keyword_occurs table text ∧ r = unclear_result) ∨
     (hit table (Py.lower text) (intent r) ∧
      route r = _determine_route (intent r) (confidence r) (Py.lower text))) ∧
    (1 <? confidence r)%float = false.
Proof. apply classify_cases. Qed.

(** X2. When the keywords that occur in the lowercased text all belong
    to one intent, [classify] returns that intent. *)
Theorem classify_single_intent :
  ∀ (table : IntentTable) (text name : string),
    hit table (Py.lower text) name →
    (∀ other, hit table (Py.lower text) other → other = name) →
    intent (classify table text) = name.
Proof.
  intros table text name Hhit Honly.
  destruct (classify_cases table text) as [[[Hno _]|[H _]] _].
  - destruct Hhit as (kws & kw & Hin & Hkw & Hsub).
    by destruct (Hno name kws kw).
  - by apply Honly.
Qed.

Lemma hit_Forall_Exists table text_lower name :
  Exists (λ item, item.1 = name ∧
            Exists (λ kw, Py.substring kw text_lower) item.2) table →
  hit table text_lower name.
Proof.
  intros ([name' kws] & Hin & Hname & Hex)%Exists_exists. simpl in *. subst.
  apply Exists_exists in Hex as (kw & Hkw & Hsub). by exists kws, kw.
Qed.

Lemma hit_only_Forall table text_lower name :
  Forall (λ item, item.1 = name ∨
            Forall (λ kw, ¬ Py.substring kw text_lower) item.2) table →
  ∀ other, hit table text_lower other → other = name.
Proof.
  intros H other (kws & kw & Hin & Hkw & Hsub).
  destruct (proj1 (Forall_forall _ _) H _ Hin) as [?|Hno]; [done|].
  simpl in Hno. by destruct (proj1 (Forall_forall _ _) Hno kw Hkw).
Qed.

Lemma classify_single_intent_witness :
  intent (classify default_table "The compressor VALVE leaks") =
  "equipment_specific".
Proof.
  apply (classify_single_intent default_table
           "The compressor VALVE leaks" "equipment_specific").
  - apply hit_Forall_Exists. apply (bool_decide_unpack _). vm_compute. exact I.
  - apply hit_only_Forall. apply (bool_decide_unpack _). vm_compute. exact I.
Defined.

(** X3. The text is matched without regard to case: [classify] gives
    the same result for a text and for its lowercased form. *)
Theorem classify_case_insensitive :
  ∀ (table : IntentTable) (text : string),
    classify table (Py.lower text) = classify table text.
Proof. intros table text. unfold classify. by rewrite lower_idemp. Qed.

(** X4. The keywords are not case-folded: a keyword that is not in lower
    case never matches, so a table whose keywords all contain a capital
    letter classifies every text as unclear. *)
Theorem classify_capital_keywords_never_match :
  ∀ (table : IntentTable) (text : string),
    (∀ name keywords keyword,
       (name, keywords) ∈ table → keyword ∈ keywords →
       Py.lower keyword ≠ keyword) →
    classify table text = unclear_result.
Proof.
  intros table text Hcap. apply classify_unmatched.
  intros name kws kw Hin Hkw Hsub.
  by apply (Hcap name kws kw Hin Hkw), (substring_lower_fixed kw text).
Qed.

Lemma classify_capital_keywords_never_match_witness :
  classify [("greeting", ["Hello"; "Hi"])] "Hello" = unclear_result.
Proof.
  apply (classify_capital_keywords_never_match
           [("greeting", ["Hello"; "Hi"])] "Hello").
  intros name kws kw Hin Hkw.
  apply list_elem_of_singleton in Hin as [= -> ->].
  apply elem_of_cons in Hkw as [->|Hkw]; [discriminate|].
  apply list_elem_of_singleton in Hkw as ->. discriminate.
Defined.

(** The order of binary64 around the three thresholds. *)
Lemma high_threshold_bits :
  Prim2SF 0.7 = S754_finite false 6305039478318694 (-53).
Proof. vm_compute. reflexivity. Qed.

Lemma simple_threshold_bits :
  Prim2SF 0.5 = S754_finite false 4503599627370496 (-53).
Proof. vm_compute. reflexivity. Qed.

Lemma low_threshold_bits :
  Prim2SF 0.3 = S754_finite false 5404319552844595 (-54).
Proof. vm_compute. reflexivity. Qed.

Lemma exponent_above (e : Z) : (-53 < e)%Z → (e ?= -54)%Z = Gt.
Proof. intros H. apply Z.compare_gt_iff. lia. Qed.

Lemma mantissa_above (m : positive) :
  (6305039478318694 ?= m)%positive = Lt →
  (4503599627370496 ?= m)%positive = Lt.
Proof.
  intros H. apply Pos.compare_lt_iff.
  apply Pos.lt_trans with 6305039478318694%positive; [reflexivity|].
  by apply Pos.compare_lt_iff.
Qed.

Lemma exponent_equal (e : Z) : (-53 ?= e)%Z = Eq → (e ?= -54)%Z = Gt.
Proof. intros H. apply Z.compare_eq_iff in H. by subst e. Qed.

Lemma finite_above_simple (m : positive) (e : Z) :
  SFltb (S754_finite false 6305039478318694 (-53)) (S754_finite false m e)
    = true →
  SFltb (S754_finite false 4503599627370496 (-53)) (S754_finite false m e)
    = true.
Proof.
  unfold SFltb, SFcompare.
  change (PosDef.Pos.compare_cont Eq) with Pos.compare.
  destruct (-53 ?= e)%Z eqn:He; [|intros _|intros; discriminate].
  - destruct (6305039478318694 ?= m)%positive eqn:Hm;
      intros; try discriminate.
    by rewrite mantissa_above.
  - reflexivity.
Qed.

Lemma finite_not_below_low (m : positive) (e : Z) :
  SFltb (S754_finite false 6305039478318694 (-53)) (S754_finite false m e)
    = true →
  SFltb (S754_finite false m e) (S754_finite false 5404319552844595 (-54))
    = false.
Proof.
  unfold SFltb, SFcompare.
  destruct (-53 ?= e)%Z eqn:He; [intros _|intros _|intros; discriminate].
  - by rewrite (exponent_equal e He).
  - apply Z.compare_lt_iff in He. by rewrite exponent_above.
Qed.

Lemma above_high_threshold_spec (x : spec_float) :
  SFltb (S754_finite false 6305039478318694 (-53)) x = true →
  SFltb (S754_finite false 4503599627370496 (-53)) x = true ∧
  SFltb x (S754_finite false 5404319552844595 (-54)) = false.
Proof.
  destruct x as [s|s| |[] m e]; try (intros; discriminate).
  - destruct s; intros; [discriminate|by split].
  - intros H. split;
      [by apply finite_above_simple|by apply finite_not_below_low].
Qed.

Lemma above_high_threshold (c : float) :
  (0.7 <? c)%float = true →
  (0.5 <? c)%float = true ∧ (c <? 0.3)%float = false.
Proof.
  rewrite !ltb_spec.
  rewrite high_threshold_bits, simple_threshold_bits, low_threshold_bits.
  apply above_high_threshold_spec.
Qed.

(** X5. Of the three thresholds only the highest decides: the route is
    [llm] exactly when the intent is not a simple one and the confidence
    is above 0.7; every other input, a NaN confidence too, goes to the
    rules. *)
Theorem determine_route_llm :
  ∀ (intent : string) (confidence : float) (text : string),
    _determine_route intent confidence text = llm ↔
    (intent ∉ simple_intents) ∧ (0.7 <? confidence)%float = true.
Proof.
  intros intent confidence text. unfold _determine_route. split.
  - destruct (decide (intent ∈ simple_intents)) as [Hin|Hnin].
    + rewrite bool_decide_eq_true_2 by done.
      destruct (0.5 <? confidence)%float eqn:H5; [done|]. simpl.
      destruct (confidence <? 0.3)%float; [done|].
      destruct (0.7 <? confidence)%float eqn:H7; [|done].
      apply above_high_threshold in H7 as [H7 _]. congruence.
    + rewrite bool_decide_eq_false_2 by done. simpl.
      destruct (confidence <? 0.3)%float; [done|].
      by destruct (0.7 <? confidence)%float.
  - intros [Hnin H7]. rewrite bool_decide_eq_false_2 by done. simpl.
    destruct (above_high_threshold confidence H7) as [_ ->]. by rewrite H7.
Qed.

End classifier_more.

(** ** More on retrieval *)

Section retrieval_more.
Import RAGSystem Examples.

Lemma jaccard_bounds (query doc : string) :
  matches query doc →
  (0 < jaccard query doc)%Q ∧ (jaccard query doc <= 1)%Q.
Proof.
  intros Hm. apply overlap_matches in Hm.
  pose proof (union_size_pos _ _ Hm) as Hu.
  assert (size (word_set query ∩ word_set doc) ≤
          size (word_set query ∪ word_set doc)) as Hle.
  { apply subseteq_size. etrans; [apply intersection_subseteq_l|].
    apply union_subseteq_l. }
  unfold jaccard, Qlt, Qle. cbn [Qnum Qden]. lia.
Qed.

(** X6. Every similarity score that [retrieve_context] returns is above
    0 and at most 1. *)
Theorem retrieve_context_score_range :
  ∀ (st : state) (query : string) (k : Z),
    indexed st →
    ∃ out,
      retrieve_context st query k = inr out ∧
      ∀ r, r ∈ out →
           (0 < similarity_score r)%Q ∧ (similarity_score r <= 1)%Q.
Proof.
  intros st query k Hidx. eexists. split; [by apply retrieve_context_spec|].
  intros r Hr.
  assert (r ∈ matching_results st query) as Hin.
  { rewrite <- (sort_desc_Permutation (matching_results st query)).
    destruct (slice_to_prefix (sort_desc (matching_results st query)) k)
      as [rest ->].
    apply elem_of_app. by left. }
  apply matching_results_elem_of in Hin as (i & doc & m & n & _ & _ & Hm & ->).
  by apply jaccard_bounds.
Qed.

Lemma retrieve_context_score_range_witness :
  ∃ out,
    retrieve_context sample_store "inspect pump" 3 = inr out ∧
    ∀ r, r ∈ out →
         (0 < similarity_score r)%Q ∧ (similarity_score r <= 1)%Q.
Proof.
  apply (retrieve_context_score_range sample_store "inspect pump" 3).
  reflexivity.
Defined.





Lemma sort_desc_length l : length (sort_desc l) = length l.
Proof. by rewrite sort_desc_Permutation. Qed.

(** X8. For [k ≥ 0] the result has exactly the smaller of [k] and the
    number of matching documents as its length, so [k = 0] gives the
    empty list; and a larger [k] only appends: the result for [k] is a
    prefix of the result for any [k' ≥ k]. *)
Theorem retrieve_context_grows_with_k :
  ∀ (st : state) (query : string) (k k' : Z),
    indexed st → (0 ≤ k ≤ k')%Z →
    ∃ out out',
      retrieve_context st query k = inr out ∧
      retrieve_context st query k' = inr out' ∧
      length out = Z.to_nat k `min` match_count st query ∧
      out `prefix_of` out'.
Proof.
  intros st query k k' Hidx Hk. eexists _, _.
  split; [by apply retrieve_context_spec|].
  split; [by apply retrieve_context_spec|].
  rewrite !slice_to_nonneg by lia. split.
  - by rewrite length_take, sort_desc_length, matching_results_length.
  - exists (take (Z.to_nat k' - Z.to_nat k)
              (drop (Z.to_nat k) (sort_desc (matching_results st query)))).
    rewrite take_take_drop. f_equal. lia.
Qed.

Lemma retrieve_context_grows_with_k_witness :
  ∃ out out',
    retrieve_context sample_store "check" 1 = inr out ∧
    retrieve_context sample_store "check" 2 = inr out' ∧
    length out = Z.to_nat 1 `min` match_count sample_store "check" ∧
    out `prefix_of` out'.
Proof.
  apply (retrieve_context_grows_with_k sample_store "check" 1 2);
    [reflexivity|lia].
Defined.

(** X9. A negative [k] is not rejected: the slice then drops the last
    [-k] results of the full ranking, so [k = -1] returns every match but
    the lowest one. *)
Theorem retrieve_context_negative_k :
  ∀ (st : state) (query : string) (k : Z),
    indexed st → (k < 0)%Z →
    ∃ out full,
      retrieve_context st query k = inr out ∧
      retrieve_context st query (Z.of_nat (match_count st query)) = inr full ∧
      length full = match_count st query ∧
      out = take (match_count st query - Z.to_nat (- k)) full.
Proof.
  intros st query k Hidx Hk. eexists _, _.
  split; [by apply retrieve_context_spec|].
  split; [by apply retrieve_context_spec|].
  rewrite slice_to_nonneg by lia. rewrite Nat2Z.id.
  rewrite take_ge
    by by rewrite sort_desc_length, matching_results_length.
  split; [by rewrite sort_desc_length, matching_results_length|].
  unfold Py.slice_to. destruct (Z.leb_spec 0 k) as [?|_]; [lia|].
  by rewrite sort_desc_length, matching_results_length.
Qed.

Lemma retrieve_context_negative_k_witness :
  ∃ out full,
    retrieve_context sample_store "check" (-1) = inr out ∧
    retrieve_context sample_store "check"
      (Z.of_nat (match_count sample_store "check")) = inr full ∧
    length full = match_count sample_store "check" ∧
    out = take (match_count sample_store "check" - Z.to_nat (- -1)) full.
Proof.
  apply (retrieve_context_negative_k sample_store "check" (-1));
    [reflexivity|lia].
Defined.

Lemma word_set_lower (s : string) : word_set (Py.lower s) = word_set s.
Proof. unfold word_set. by rewrite lower_idemp. Qed.

(** X10. The query is matched without regard to case: retrieval and the
    context string are the same for a query and for its lowercased
    form, on every store. *)
Theorem retrieve_context_case_insensitive :
  ∀ (st : state) (query : string) (k : Z),
    retrieve_context st (Py.lower query) k = retrieve_context st query k ∧
    get_context_string st (Py.lower query) k = get_context_string st query k.
Proof.
  intros st query k.
  assert (retrieve_context st (Py.lower query) k =
          retrieve_context st query k) as H
    by (unfold retrieve_context; by rewrite word_set_lower).
  split; [done|]. unfold get_context_string. by rewrite H.
Qed.

End retrieval_more.

(** ** More on indexing *)

Section indexing_more.
Import RAGSystem Examples.

Lemma foldl_index_file_path (fls : list txt_file) (st : state) :
  documents_path (foldl index_file st fls) = documents_path st.
Proof. apply foldl_index_file. Qed.

Lemma foldl_index_file_documents (fls : list txt_file) (st : state) :
  documents (foldl index_file st fls) = documents st ++ (readable fls).*1.
Proof. apply foldl_index_file. Qed.

(** X11. Indexing replaces the index: the outcome does not depend on
    what was indexed before, so indexing the same directory twice gives
    the same index as indexing it once; and an empty path argument stands
    for the default directory. *)
Theorem index_documents_idempotent :
  ∀ (fs : file_system) (st : state) (path_arg : option string),
    index_documents fs (index_documents fs st path_arg).1 path_arg =
      index_documents fs st path_arg ∧
    (∀ st', documents_path st' = documents_path st →
            index_documents fs st' path_arg = index_documents fs st path_arg) ∧
    index_documents fs st (Some "") = index_documents fs st None.
Proof.
  intros fs st path_arg.
  assert (∀ st', documents_path st' = documents_path st →
                 index_documents fs st' path_arg =
                 index_documents fs st path_arg) as H.
  { intros st' Hp. unfold index_documents. by rewrite Hp. }
  split; [|split; [done|done]].
  apply H. unfold index_documents. cbn [fst].
  by rewrite foldl_index_file_path.
Qed.

Lemma readable_length (fls : list txt_file) :
  length (readable fls) ≤ length fls ∧
  (Forall (λ f, file_read f ≠ read_error) fls →
   length (readable fls) = length fls).
Proof.
  unfold readable. induction fls as [|f fls [IH1 IH2]]; [done|].
  cbn [omap list_omap]. split.
  - destruct (file_read f); simpl; lia.
  - intros [Hf Hfls]%Forall_cons. destruct (file_read f); [|done].
    simpl. by rewrite IH2.
Qed.

(** X12. After [index_documents], [get_statistics] counts the files of
    the scan that could be read: never more than the scan yielded, and
    all of them when every file could be read; the number of chunks is
    the number of documents. *)
Theorem get_statistics_after_index :
  ∀ (fs : file_system) (st : state) (path_arg : option string),
    let scan := fs (scanned_path st path_arg) in
    let stats := get_statistics (index_documents fs st path_arg).1 in
    total_documents stats = length (readable (files scan)) ∧
    total_chunks stats = total_documents stats ∧
    total_documents stats ≤ length (files scan) ∧
    (Forall (λ f, file_read f ≠ read_error) (files scan) →
     total_documents stats = length (files scan)).
Proof.
  intros fs st path_arg. cbv zeta. unfold get_statistics.
  cbn [total_documents total_chunks].
  unfold index_documents. fold (scanned_path st path_arg). cbn [fst].
  rewrite foldl_index_file_documents. cbn [documents app].
  rewrite length_fmap.
  destruct (readable_length (files (fs (scanned_path st path_arg))))
    as [H1 H2].
  done.
Qed.

End indexing_more.

(** ** The [index-documents] command *)

Section app.
Import RAGSystem Examples App.

(** X13. The command drops the value of [index_documents]: when the
    scan raises, [index_documents] returns [False] and leaves only the
    files read before the exception in the index, and the command still
    echoes that the documents were indexed. *)
Theorem index_documents_command_hides_failure :
  ∀ (fs : file_system) (st : state) (path : string),
    raises (fs (scanned_path st (Some path))) = true →
    (index_documents fs st (Some path)).2 = false ∧
    index_documents_command (Some st) fs path =
      (Some (index_documents fs st (Some path)).1,
       "Documents indexed successfully!") ∧
    documents (index_documents fs st (Some path)).1 =
      (readable (files (fs (scanned_path st (Some path))))).*1.
Proof.
  intros fs st path Hraise. split; [|split; [done|]].
  - unfold index_documents. fold (scanned_path st (Some path)). cbn [snd].
    by rewrite Hraise.
  - unfold index_documents. fold (scanned_path st (Some path)). cbn [fst].
    by rewrite foldl_index_file_documents.
Qed.

Lemma index_documents_command_hides_failure_witness :
  (index_documents broken_fs sample_store (Some manuals)).2 = false ∧
  index_documents_command (Some sample_store) broken_fs manuals =
    (Some (index_documents broken_fs sample_store (Some manuals)).1,
     "Documents indexed successfully!") ∧
  documents (index_documents broken_fs sample_store (Some manuals)).1 =
    (readable (files (broken_fs
                        (scanned_path sample_store (Some manuals))))).*1.
Proof.
  apply (index_documents_command_hides_failure broken_fs sample_store manuals).
  reflexivity.
Defined.

End app.

(** ** More on saving and loading *)

Section persistence_more.
Import IntentClassifier Examples.


Lemma default_table_is_dict : is_dict default_table.
Proof. apply (bool_decide_unpack _). by vm_compute. Qed.




(** X16. The first start, with no model file: the classifier holds the
    default table and, when the path has a directory part and can be
    written, the file then holds its dump; a second start on the same
    path loads the same table and changes nothing. *)
Theorem first_start_creates_model :
  ∀ (fs : file_system) (path : string),
    files fs !! path = None →
    dirname path ≠ "" →
    can_write fs path = true →
    intent_keywords (init fs path).2 = default_table ∧
    files (init fs path).1 !! path = Some (Json.dump default_table) ∧
    init (init fs path).1 path = init fs path.
Proof.
  intros fs path Hnone Hdir Hw.
  assert (init fs path =
          ({| files := <[path := Json.dump default_table]> (files fs);
              can_write := can_write fs |},
           {| model_path := path; intent_keywords := default_table |})) as ->.
  { unfold init, load_or_create_model. cbn [model_path]. rewrite Hnone.
    unfold create_default_model, save_model. cbn [model_path intent_keywords].
    by rewrite decide_False, Hw by done. }
  cbn [fst snd files intent_keywords]. split; [done|].
  split; [by rewrite lookup_insert_eq|].
  unfold init, load_or_create_model. cbn [model_path files].
  rewrite lookup_insert_eq, load_dump; [done|apply default_table_is_dict].
Qed.

Lemma first_start_creates_model_witness :
  intent_keywords (init (permissive ∅) "models/intent_keywords.json").2 =
    default_table ∧
  files (init (permissive ∅) "models/intent_keywords.json").1
    !! "models/intent_keywords.json" = Some (Json.dump default_table) ∧
  init (init (permissive ∅) "models/intent_keywords.json").1
       "models/intent_keywords.json" =
    init (permissive ∅) "models/intent_keywords.json".
Proof.
  apply (first_start_creates_model (permissive ∅)
           "models/intent_keywords.json");
    [reflexivity|by vm_compute|reflexivity].
Defined.

(** X17. With a model path that has no directory part nothing is ever
    written: [save_model] and the constructor leave the file system as it
    was, for every table, and without a file at the path every start
    falls back to the default table. *)
Theorem bare_file_name_never_written :
  ∀ (fs : file_system) (path : string),
    dirname path = "" →
    (∀ table, save_model fs {| model_path := path;
                               intent_keywords := table |} = fs) ∧
    (init fs path).1 = fs ∧
    (files fs !! path = None →
     intent_keywords (init fs path).2 = default_table).
Proof.
  intros fs path Hdir.
  assert (∀ table, save_model fs {| model_path := path;
                                    intent_keywords := table |} = fs) as Hsave.
  { intros table. unfold save_model. cbn [model_path].
    by rewrite decide_True. }
  split; [done|]. unfold init, load_or_create_model, create_default_model.
  cbn [model_path]. split.
  - destruct (files fs !! path) as [content|]; [|apply Hsave].
    destruct (Json.load content); [done|apply Hsave].
  - by intros ->.
Qed.

Lemma bare_file_name_never_written_witness :
  (∀ table, save_model (permissive ∅)
              {| model_path := "intent_keywords.json";
                 intent_keywords := table |} = permissive ∅) ∧
  (init (permissive ∅) "intent_keywords.json").1 = permissive ∅ ∧
  (files (permissive ∅) !! "intent_keywords.json" = None →
   intent_keywords (init (permissive ∅) "intent_keywords.json").2 =
   default_table).
Proof.
  apply (bare_file_name_never_written (permissive ∅) "intent_keywords.json").
  reflexivity.
Defined.

(** X18. Saving and constructing touch one file only: every other file
    keeps its content, and what can be written does not change. *)
Theorem persistence_frame :
  ∀ (fs : file_system) (self : state) (other : string),
    other ≠ model_path self →
    files (save_model fs self) !! other = files fs !! other ∧
    files (load_or_create_model fs self).1 !! other = files fs !! other ∧
    can_write (save_model fs self) = can_write fs ∧
    can_write (load_or_create_model fs self).1 = can_write fs.
Proof.
  intros fs self other Hne.
  assert (∀ self', model_path self' = model_path self →
            files (save_model fs self') !! other = files fs !! other ∧
            can_write (save_model fs self') = can_write fs) as Hsave.
  { intros self' Hp. unfold save_model. rewrite Hp.
    destruct (decide _); [done|]. destruct (can_write fs _); [|done].
    cbn [files can_write]. by rewrite lookup_insert_ne. }
  destruct (Hsave self eq_refl) as [H1 H2].
  assert (files (load_or_create_model fs self).1 !! other = files fs !! other ∧
          can_write (load_or_create_model fs self).1 = can_write fs) as [H3 H4].
  { unfold load_or_create_model, create_default_model.
    destruct (files fs !! model_path self) as [content|];
      [destruct (Json.load content); [done|]|]; by apply Hsave. }
  done.
Qed.

Lemma persistence_frame_witness :
  let fs := permissive {["notes.txt" := "keep"]} in
  let self := {| model_path := "models/intent_keywords.json";
                 intent_keywords := default_table |} in
  files (save_model fs self) !! "notes.txt" = files fs !! "notes.txt" ∧
  files (load_or_create_model fs self).1 !! "notes.txt" =
    files fs !! "notes.txt" ∧
  can_write (save_model fs self) = can_write fs ∧
  can_write (load_or_create_model fs self).1 = can_write fs.
Proof.
  apply (persistence_frame (permissive {["notes.txt" := "keep"]})
           {| model_path := "models/intent_keywords.json";
              intent_keywords := default_table |} "notes.txt").
  discriminate.
Defined.

End persistence_more.

(** ** The installation script *)

Section setup.
Import Setup.

Lemma install_requirements_run (env : environment) :
  install_requirements env = ([Run first_strategy], Some true).
Proof.
  unfold install_requirements, strategies, try_strategies, bind, run_command.
  cbn [fst snd]. by destruct (exit_zero env _).
Qed.





(** On that machine the installation of the packages fails and [main]
    still returns [True]. *)
Example main_fresh_machine :
  exit_zero Examples.fresh_machine first_strategy = false ∧
  (main Examples.fresh_machine).2 = Some true.
Proof. by vm_compute. Qed.

Lemma bind_trace_Forall {A B} (P : action → Prop) (m : M A) (f : A → M B) :
  Forall P m.1 → (∀ x, m.2 = Some x → Forall P (f x).1) →
  Forall P (bind m f).1.
Proof.
  intros Hm Hf. unfold bind. destruct m.2 as [x|]; [|done].
  cbn [fst]. apply Forall_app. split; [done|by apply Hf].
Qed.

Lemma bind_cases {A B} (m : M A) (f : A → M B) :
  (m.2 = None ∧ bind m f = (m.1, None)) ∨
  (∃ x, m.2 = Some x ∧ bind m f = (m.1 ++ (f x).1, (f x).2)).
Proof.
  unfold bind. destruct m.2 as [x|]; [right; by exists x|by left].
Qed.

Lemma make_directories_Forall (P : action → Prop) env dirs :
  (∀ d, P (Mkdir d)) → Forall P (make_directories env dirs).1.
Proof.
  intros HP. induction dirs as [|d dirs IH]; [constructor|].
  cbn [make_directories]. apply bind_trace_Forall; [|done].
  repeat constructor. apply HP.
Qed.

Lemma main_unfold (env : environment) :
  main env =
  if negb (check_python_version env) then ret false
  else bind (create_directories env) (λ _,
       bind (setup_virtual_environment env) (λ venv_ok : bool,
         if negb venv_ok then ret false else finish env)).
Proof. reflexivity. Qed.

Ltac solve_permitted :=
  cbn [permitted]; first [exact I | by right | by intros [=] | done].

Ltac solve_trace :=
  repeat (constructor; [solve_permitted|]); try constructor.

Lemma finish_permitted (env : environment) :
  Forall (permitted env) (finish env).1 ∧ (finish env).2 ≠ Some false.
Proof.
  unfold finish. rewrite install_requirements_run.
  unfold create_safe_requirements, create_env_file,
    create_simple_intent_classifier, create_simple_rag_system, attempt, bind.
  cbn [fst snd].
  destruct (io_ok env "requirements_safe.txt"); cbn [fst snd];
    [|by split; [solve_trace|]].
  destruct (dotenv_exists env) eqn:Hdot; cbn [fst snd].
  - destruct (io_ok env "models"); cbn [fst snd];
      [|by split; [solve_trace|]].
    destruct (io_ok env "models/intent_classifier.py"); cbn [fst snd];
      [|by split; [solve_trace|]].
    destruct (io_ok env "models/rag_system.py"); cbn [fst snd];
      by split; [solve_trace|].
  - destruct (io_ok env ".env"); cbn [fst snd];
      [|by split; [solve_trace|]].
    destruct (io_ok env "models"); cbn [fst snd];
      [|by split; [solve_trace|]].
    destruct (io_ok env "models/intent_classifier.py"); cbn [fst snd];
      [|by split; [solve_trace|]].
    destruct (io_ok env "models/rag_system.py"); cbn [fst snd];
      by split; [solve_trace|].
Qed.

(** X21. On every machine, also when a directory or file operation
    raises: [main] writes the file [.env] only when there is none, runs
    the command for the virtual environment only when there is none,
    runs no other command than that one and the first installation
    strategy, and, when it returns [False], has written no file and
    installed nothing. *)
Theorem main_effects :
  ∀ env : environment,
    (Write ".env" ∈ (main env).1 → dotenv_exists env = false) ∧
    (Run venv_command ∈ (main env).1 → venv_exists env = false) ∧
    (∀ command, Run command ∈ (main env).1 →
                command = venv_command ∨ command = first_strategy) ∧
    ((main env).2 = Some false →
     ∀ a, a ∈ (main env).1 →
          (∃ d, a = Mkdir d) ∨ a = Run venv_command).
Proof.
  intros env.
  assert (Forall (permitted env) (main env).1) as Hperm.
  { rewrite main_unfold. destruct (negb _); [constructor|].
    apply bind_trace_Forall; [by apply make_directories_Forall|].
    intros _ _. apply bind_trace_Forall.
    - unfold setup_virtual_environment.
      destruct (venv_exists env) eqn:Hv; [constructor|].
      constructor; [by left|constructor].
    - intros [] _; cbn [negb]; [apply finish_permitted|constructor]. }
  assert ((main env).2 = Some false → Forall preparation (main env).1) as Hprep.
  { rewrite main_unfold. destruct (negb _); [constructor|].
    destruct (bind_cases (create_directories env)
                (λ _, bind (setup_virtual_environment env)
                        (λ venv_ok : bool,
                           if negb venv_ok then ret false else finish env)))
      as [[_ ->]|(u & _ & ->)]; cbn [fst snd]; [done|].
    intros Hres. apply Forall_app.
    split; [by apply make_directories_Forall|]. revert Hres.
    destruct (bind_cases (setup_virtual_environment env)
                (λ venv_ok : bool,
                   if negb venv_ok then ret false else finish env))
      as [[_ ->]|([] & Hv & ->)]; cbn [fst snd negb]; [done|..].
    - intros Hres. by destruct (finish_permitted env) as [_ Hne].
    - intros _. apply Forall_app. split; [|constructor].
      revert Hv. unfold setup_virtual_environment.
      destruct (venv_exists env); [done|]. intros _.
      by repeat constructor. }
  split; [|split; [|split]].
  - intros Hin. by apply (proj1 (Forall_forall _ _) Hperm _ Hin).
  - intros Hin.
    destruct (proj1 (Forall_forall _ _) Hperm _ Hin) as [[_ ?]|H]; [done|].
    discriminate H.
  - intros command Hin.
    destruct (proj1 (Forall_forall _ _) Hperm _ Hin) as [[? _]|?]; auto.
  - intros Hres a Hin.
    pose proof (proj1 (Forall_forall _ _) (Hprep Hres) _ Hin) as Ha.
    destruct a as [d|p|c]; [left; by exists d|done|right; by rewrite Ha].
Qed.

End setup.
